(** * auto-uploader PC agent: the sync engine of [main.py]

    A shallow embedding of the sync engine (state store, path mapper,
    fetch worker, poll cycle, polling loop) and the properties of it that
    the specification states.

    Conventions of the embedding.
    - Python [str] is [string]; [os.path] and [pathlib] are the POSIX
      flavours ([posixpath.normpath], [PurePosixPath]).
    - [StateStore._data] is a [gmap string string]; the set of listed keys
      is a [gset string].
    - Effectful code is written in a small monad that returns the list of
      atomic effects ([Event]) it performed; the store after a run is the
      replay of these events, and the store a crash leaves behind is the
      replay of a prefix of them. *)

From Stdlib Require Import Ascii String.
From stdpp Require Import gmap strings list fin_maps sets.

(* ===================================================================== *)
(** * Python string operations used by the source *)
(* ===================================================================== *)

Module Str.

(** [len(s)] *)
Definition len (s : string) : nat := String.length s.

(** [s.startswith(p)] *)
Definition startswith (s p : string) : bool := String.prefix p s.

(** [s[n:]] for [0 <= n] *)
Fixpoint drop (n : nat) (s : string) : string :=
  match n, s with
  | S n', String _ r => drop n' r
  | _, _ => s
  end.

(** [s[:n]] for [0 <= n] *)
Fixpoint take (n : nat) (s : string) : string :=
  match n, s with
  | S n', String c r => String c (take n' r)
  | _, _ => ""
  end.

(** [s.replace(a, b)] for one-character [a] and [b] *)
Fixpoint replace_char (a b : ascii) (s : string) : string :=
  match s with
  | "" => ""
  | String c r =>
      String (if Ascii.eqb c a then b else c) (replace_char a b r)
  end.

(** [s.split(sep)] for a one-character separator; never the empty list *)
Fixpoint split (sep : ascii) (s : string) : list string :=
  match s with
  | "" => [""]
  | String c r =>
      if Ascii.eqb c sep then "" :: split sep r
      else match split sep r with
           | [] => [String c ""]
           | h :: t => String c h :: t
           end
  end.

(** [sep.join(l)] *)
Definition join (sep : string) (l : list string) : string :=
  String.concat sep l.

(** [s.rfind(c)]: index of the last occurrence, [None] for Python's -1 *)
Fixpoint rfind (c : ascii) (s : string) : option nat :=
  match s with
  | "" => None
  | String a r =>
      match rfind c r with
      | Some i => Some (S i)
      | None => if Ascii.eqb a c then Some 0 else None
      end
  end.

(** [c in s] *)
Fixpoint contains (c : ascii) (s : string) : bool :=
  match s with
  | "" => false
  | String a r => Ascii.eqb a c || contains c r
  end.

(** [s.lstrip(c)] *)
Fixpoint lstrip (c : ascii) (s : string) : string :=
  match s with
  | String a r => if Ascii.eqb a c then lstrip c r else s
  | "" => ""
  end.

(** [s.rstrip(c)] *)
Fixpoint rstrip (c : ascii) (s : string) : string :=
  match s with
  | "" => ""
  | String a r =>
      match rstrip c r with
      | "" => if Ascii.eqb a c then "" else String a ""
      | r' => String a r'
      end
  end.

(** [s.strip(c)] *)
Definition strip (c : ascii) (s : string) : string := rstrip c (lstrip c s).

(** The characters of [s], one string each *)
Fixpoint chars (s : string) : list string :=
  match s with
  | "" => []
  | String c r => String c "" :: chars r
  end.

End Str.

(** Exceptions the engine distinguishes. *)
Inductive exn : Type :=
  | ValueError (msg : string)
  | ClientError
  | OSError.

Global Instance exn_eq_dec : EqDecision exn.
Proof. solve_decision. Defined.

(* ===================================================================== *)
(** * [os.path.normpath] (posixpath) *)
(* ===================================================================== *)

Module PosixPath.

(** The loop body of [normpath]. [new_comps] is kept as a stack: its head
    is the source's [new_comps[-1]], [comp :: st] is [append] and the tail
    is [pop]. *)
Definition norm_step (initial_slashes : nat) (new_comps : list string)
    (comp : string) : list string :=
  if bool_decide (comp = "") || bool_decide (comp = ".") then new_comps
  else if negb (bool_decide (comp = ".."))
          || (bool_decide (initial_slashes = 0)
              && bool_decide (new_comps = []))
          || match new_comps with
             | top :: _ => bool_decide (top = "..")
             | [] => false
             end
       then comp :: new_comps
       else match new_comps with
            | _ :: rest => rest
            | [] => []
            end.

Definition norm_comps (initial_slashes : nat) (comps : list string)
    : list string :=
  rev (fold_left (norm_step initial_slashes) comps []).

Definition initial_slashes (path : string) : nat :=
  if Str.startswith path "/" then
    if Str.startswith path "//" && negb (Str.startswith path "///")
    then 2 else 1
  else 0.

Fixpoint repeat_sep (n : nat) : string :=
  match n with
  | 0 => ""
  | S n' => String "/" (repeat_sep n')
  end.

Definition normpath (path : string) : string :=
  if bool_decide (path = "") then "."
  else
    let i := initial_slashes path in
    let comps := norm_comps i (Str.split "/" path) in
    let path' := repeat_sep i +:+ Str.join "/" comps in
    if bool_decide (path' = "") then "." else path'.

End PosixPath.

(* ===================================================================== *)
(** * [pathlib.Path] (PurePosixPath) *)
(* ===================================================================== *)

(** A parsed path: the root (one of the empty string, [/] and [//]) and the
    components after it; the parser drops empty and [.] components. *)
Record Path : Type := MkPath { root : string; parts : list string }.

Global Instance Path_eq_dec : EqDecision Path.
Proof. solve_decision. Defined.

Global Instance Path_countable : Countable Path.
Proof.
  refine (inj_countable' (fun p => (root p, parts p))
                         (fun t => MkPath t.1 t.2) _).
  by intros [].
Defined.

Module PathLib.

(** The components kept by the parser. *)
Definition parse_parts (rel : string) : list string :=
  filter (fun c => c ≠ "" ∧ c ≠ ".") (Str.split "/" rel).

(** [splitroot]: exactly two leading slashes are kept as a root of their
    own, any other positive number is one slash. *)
Definition splitroot (part : string) : string * string :=
  if Str.startswith part "/" then
    let stripped := Str.lstrip "/" part in
    if bool_decide (Str.len part - Str.len stripped = 2)
    then ("//", stripped) else ("/", stripped)
  else ("", part).

(** [Path(s)] *)
Definition of_string (s : string) : Path :=
  let '(r, rel) := splitroot s in MkPath r (parse_parts rel).

(** [p / s]: a segment with a root replaces everything before it. *)
Definition joinpath (p : Path) (s : string) : Path :=
  let '(r, rel) := splitroot s in
  if bool_decide (r = "") then MkPath (root p) (parts p ++ parse_parts rel)
  else MkPath r (parse_parts rel).

(** [p.name] *)
Definition name (p : Path) : string := default "" (last (parts p)).

(** [p.parent] *)
Definition parent (p : Path) : Path := MkPath (root p) (removelast (parts p)).

(** [p.suffix] *)
Definition suffix (p : Path) : string :=
  let n := name p in
  match Str.rfind "." n with
  | Some i =>
      if bool_decide (0 < i) && bool_decide (i < Str.len n - 1)
      then Str.drop i n else ""
  | None => ""
  end.

(** [p.with_suffix(suffix)] *)
Definition with_suffix (p : Path) (suf : string) : exn + Path :=
  if Str.contains "/" suf then inl (ValueError "Invalid suffix")
  else if (negb (bool_decide (suf = "")) && negb (Str.startswith suf "."))
          || bool_decide (suf = ".")
  then inl (ValueError "Invalid suffix")
  else
    let n := name p in
    if bool_decide (n = "") then inl (ValueError "empty name")
    else
      let old_suffix := suffix p in
      let n' :=
        if bool_decide (old_suffix = "") then n +:+ suf
        else Str.take (Str.len n - Str.len old_suffix) n +:+ suf in
      inr (MkPath (root p) (removelast (parts p) ++ [n'])).

(** [str(p)] *)
Definition to_string (p : Path) : string :=
  match parts p with
  | [] => if bool_decide (root p = "") then "." else root p
  | _ => root p +:+ Str.join "/" (parts p)
  end.

(** [q] lies in the tree under [d]: it extends [d] by components none of
    which is a parent-directory step. *)
Definition inside (d q : Path) : Prop :=
  root q = root d ∧
  ∃ rest, parts q = parts d ++ rest ∧ ".." ∉ rest.

Global Instance inside_dec d q : Decision (inside d q).
Proof.
  refine (cast_if (decide (root q = root d ∧
                           take (length (parts d)) (parts q) = parts d ∧
                           ".." ∉ drop (length (parts d)) (parts q))));
    unfold inside.
  - destruct a as (? & Ht & ?). split; [done|].
    exists (drop (length (parts d)) (parts q)). split; [|done].
    by rewrite <- Ht at 1; rewrite take_drop.
  - intros (? & rest & Hq & ?). apply n. split; [done|].
    rewrite Hq, take_app_length, drop_app_length. done.
Defined.

End PathLib.

(* ===================================================================== *)
(** * The path mapper *)
(* ===================================================================== *)

(** The relative path [rel] as it stands when the traversal test is made
    (lines 173-181 of the source). *)
Definition relative_key (key pfx : string) : string :=
  let rel :=
    if negb (bool_decide (pfx = "")) && Str.startswith key pfx then
      let rel := Str.drop (Str.len pfx) key in
      if Str.startswith rel "/" then Str.drop 1 rel else rel
    else key in
  let rel := Str.replace_char "\" "/" rel in
  PosixPath.normpath rel.

Definition s3_key_to_local_path (key pfx : string) (dest_dir : Path)
    : exn + Path :=
  let rel := relative_key key pfx in
  if Str.startswith rel ".." then inl (ValueError ("Unsafe key path: " +:+ key))
  else inr (PathLib.joinpath dest_dir rel).


(* ===================================================================== *)
(** * Stores, atomic effects and the effect monad *)
(* ===================================================================== *)

(** A listing record: its Key entry and its optional ETag entry. *)
Record S3Object : Type := MkObj { Key : string; ETag : option string }.

Global Instance S3Object_eq_dec : EqDecision S3Object.
Proof. solve_decision. Defined.

(** The ETag entry, or the empty string without one, stripped of the
    double-quote characters (code 34) at both ends. *)
Definition etag_of (obj : S3Object) : string :=
  Str.strip "034" (default "" (ETag obj)).

Inductive level : Type := DEBUG | INFO | WARNING | ERROR.

Inductive message : Type :=
  | MsgSkip (key : string)
  | MsgDownloading (key : string) (target : Path)
  | MsgDeleted (key : string)
  | MsgDeleteFailed (key : string)
  | MsgFailed (key : string) (e : exn)
  | MsgPruned (n : nat)
  | MsgFound (n : nat)
  | MsgNoNew
  | MsgS3Error
  | MsgUnexpected (e : exn)
  | MsgExited.

Global Instance level_eq_dec : EqDecision level.
Proof. solve_decision. Defined.
Global Instance message_eq_dec : EqDecision message.
Proof. solve_decision. Defined.

(** What the engine reads and writes: the local files (path to bytes), the
    in-memory mapping of the state store, the log and the clock. *)
Record Store : Type := MkStore {
  fs : gmap Path string;
  data : gmap string string;
  log : list (level * message);
  now : nat;
}.

(** The atomic effects. The [EvSave...] events are the file operations of
    [StateStore.save]; [EvOpen], [EvWrite] and [EvReplace] those of the
    fetch worker. *)
Inductive Event : Type :=
  | EvLog (lvl : level) (msg : message)
  | EvMkdir (p : Path)
  | EvOpen (p : Path)
  | EvWrite (p : Path) (chunk : string)
  | EvReplace (src dst : Path)
  | EvUnlink (p : Path)
  | EvSet (key etag : string)
  | EvPrune (keep : gset string)
  | EvSaveOpen (p : Path)
  | EvSaveWrite (p : Path) (chunk : string)
  | EvSaveReplace (src dst : Path)
  | EvDeleteObject (key : string)
  | EvTime (d : nat).

Global Instance Event_eq_dec : EqDecision Event.
Proof. solve_decision. Defined.

Definition fs_open (p : Path) (f : gmap Path string) : gmap Path string :=
  <[p := ""]> f.

Definition fs_write (p : Path) (chunk : string) (f : gmap Path string)
    : gmap Path string :=
  <[p := default "" (f !! p) +:+ chunk]> f.

(** [os.replace]: one atomic step; nothing happens when [src] is missing. *)
Definition fs_replace (src dst : Path) (f : gmap Path string)
    : gmap Path string :=
  match f !! src with
  | Some c => <[dst := c]> (delete src f)
  | None => f
  end.

Definition with_fs (g : gmap Path string → gmap Path string) (s : Store)
    : Store :=
  MkStore (g (fs s)) (data s) (log s) (now s).

Definition with_data (g : gmap string string → gmap string string)
    (s : Store) : Store :=
  MkStore (fs s) (g (data s)) (log s) (now s).

(** [logging.basicConfig(level=logging.INFO)]: DEBUG records are dropped. *)
Definition apply_event (s : Store) (e : Event) : Store :=
  match e with
  | EvLog lvl msg =>
      if bool_decide (lvl = DEBUG) then s
      else MkStore (fs s) (data s) (log s ++ [(lvl, msg)]) (now s)
  | EvMkdir _ => s
  | EvOpen p | EvSaveOpen p => with_fs (fs_open p) s
  | EvWrite p c | EvSaveWrite p c => with_fs (fs_write p c) s
  | EvReplace a b | EvSaveReplace a b => with_fs (fs_replace a b) s
  | EvUnlink p => with_fs (delete p) s
  | EvSet k v => with_data (insert k v) s
  | EvPrune keep => with_data (filter (fun kv => kv.1 ∈ keep)) s
  | EvDeleteObject _ => s
  | EvTime d => MkStore (fs s) (data s) (log s) (now s + d)
  end.

(** The store after a sequence of effects. A crash leaves [replay s evs']
    for a prefix [evs'] of the effects the code would have performed. *)
Definition replay (s : Store) (evs : list Event) : Store :=
  foldl apply_event s evs.

(** Computations: from the current store to a result or an exception, and
    the effects performed on the way. *)
Definition M (A : Type) : Type := Store → (exn + A) * list Event.

Definition ret {A} (a : A) : M A := fun _ => (inr a, []).

Definition bind {A B} (m : M A) (k : A → M B) : M B := fun s =>
  match m s with
  | (inl e, evs) => (inl e, evs)
  | (inr a, evs) =>
      let '(r, evs') := k a (replay s evs) in (r, evs ++ evs')
  end.

Global Instance M_ret : MRet M := @ret.
Global Instance M_bind : MBind M := fun A B k m => bind m k.

Definition raise {A} (e : exn) : M A := fun _ => (inl e, []).
Definition emit (e : Event) : M unit := fun _ => (inr tt, [e]).
Definition emits (evs : list Event) : M unit := fun _ => (inr tt, evs).
Definition gets {A} (f : Store → A) : M A := fun s => (inr (f s), []).
Definition lift {A} (r : exn + A) : M A := fun _ => (r, []).

(** [try: m except <catches> as e: h e] *)
Definition try_except {A} (catches : exn → bool) (m : M A) (h : exn → M A)
    : M A := fun s =>
  match m s with
  | (inl e, evs) =>
      if catches e then
        let '(r, evs') := h e (replay s evs) in (r, evs ++ evs')
      else (inl e, evs)
  | ok => ok
  end.

(** [try: m finally: f] *)
Definition try_finally {A} (m : M A) (f : M unit) : M A := fun s =>
  let '(r, evs) := m s in
  match f (replay s evs) with
  | (inl e, evs') => (inl e, evs ++ evs')
  | (inr _, evs') => (r, evs ++ evs')
  end.

(** What a submitted call leaves in its future: result or exception. *)
Definition submit {A} (m : M A) : M (exn + A) := fun s =>
  let '(r, evs) := m s in (inr r, evs).

Definition any_exception (_ : exn) : bool := true.
Definition is_ClientError (e : exn) : bool := bool_decide (e = ClientError).

Definition logging (lvl : level) (msg : message) : M unit :=
  emit (EvLog lvl msg).

(** The events and the final store of a run. *)
Definition events {A} (m : M A) (s : Store) : list Event := (m s).2.
Definition result {A} (m : M A) (s : Store) : exn + A := (m s).1.
Definition final {A} (m : M A) (s : Store) : Store := replay s (events m s).

(* ===================================================================== *)
(** * Configuration and outcomes of the external operations *)
(* ===================================================================== *)

Record Config : Type := MkConfig {
  S3_PREFIX : string;
  DESTINATION_DIR : Path;
  DELETE_AFTER_DOWNLOAD : bool;
  POLL_INTERVAL_SECONDS : nat;
}.

Definition APP_NAME : string := "android-auto-uploader-pc-agent".
Definition STATE_FILE : string := "state.json".

(** [dest_dir / f".{APP_NAME}_state"] *)
Definition state_dir (cfg : Config) : Path :=
  PathLib.joinpath (DESTINATION_DIR cfg) ("." +:+ APP_NAME +:+ "_state").

(** [StateStore.file_path] *)
Definition file_path (cfg : Config) : Path :=
  PathLib.joinpath (state_dir cfg) STATE_FILE.

(** How [client.download_file] ends: it raises before the file is created,
    it raises after writing some chunks, or it writes all chunks. *)
Inductive Download : Type :=
  | DlRefused (e : exn)
  | DlBroken (written : list string) (e : exn)
  | DlDone (chunks : list string).

(** How [StateStore.save] ends. *)
Inductive SaveOutcome : Type :=
  | SaveOpenFails
  | SaveWriteFails (written : nat)
  | SaveReplaceFails
  | SaveOk.

Inductive DeleteOutcome : Type :=
  | DelOk
  | DelClientError
  | DelFails (e : exn).

(** What the environment does to one call of [worker_download]. *)
Record Oracle : Type := MkOracle {
  mkdir_tmp_ok : bool;
  download : Download;
  mkdir_target_ok : bool;
  replace_ok : bool;
  save_outcome : SaveOutcome;
  delete_outcome : DeleteOutcome;
  unlink_ok : bool;
}.

(** Every external operation succeeds and the object is [chunks]. *)
Definition all_ok (chunks : list string) : Oracle :=
  MkOracle true (DlDone chunks) true true SaveOk DelOk true.

(* ===================================================================== *)
(** * [StateStore] *)
(* ===================================================================== *)

(** [ensure_dir] *)
Definition ensure_dir (ok : bool) (path : Path) : M unit :=
  if ok then emit (EvMkdir path) else raise OSError.

(** [self._data.get(key) == etag] *)
Definition has_entry (d : gmap string string) (key etag : string) : bool :=
  bool_decide (d !! key = Some etag).

Module StateStore.

Definition has (key etag : string) : M bool :=
  gets (fun s => has_entry (data s) key etag).

Definition set (key etag : string) : M unit := emit (EvSet key etag).

(** [tmp.write_text(text)]: the file is truncated, then filled; a crash
    or an error can leave any prefix of [text] in it. *)
Definition write_text (o : SaveOutcome) (tmp : Path) (text : string)
    : M unit :=
  match o with
  | SaveOpenFails => raise OSError
  | SaveWriteFails n =>
      emits (EvSaveOpen tmp :: (EvSaveWrite tmp <$> take n (Str.chars text)));;
      raise OSError
  | SaveReplaceFails | SaveOk =>
      emits (EvSaveOpen tmp :: (EvSaveWrite tmp <$> Str.chars text))
  end.

Definition save (json_dumps : gmap string string → string) (cfg : Config)
    (o : SaveOutcome) : M unit :=
  tmp ← lift (PathLib.with_suffix (file_path cfg) ".tmp");
  text ← gets (fun s => json_dumps (data s));
  write_text o tmp text;;
  match o with
  | SaveReplaceFails => raise OSError
  | _ => emit (EvSaveReplace tmp (file_path cfg))
  end.

Definition prune (keep_keys : gset string) : M unit :=
  removed ← gets (fun s =>
    size (filter (fun kv => kv.1 ∉ keep_keys) (data s)));
  emit (EvPrune keep_keys);;
  if bool_decide (removed ≠ 0) then logging DEBUG (MsgPruned removed)
  else mret ().

End StateStore.

(* ===================================================================== *)
(** * [S3Client] *)
(* ===================================================================== *)

Module S3Client.

(** [client.download_file] is taken as the capability the specification
    describes: it creates the file at the path it is given and writes the
    object there chunk by chunk, or raises on the way. *)
Definition download_to_temp (o : Oracle) (tmp_path : Path) : M unit :=
  ensure_dir (mkdir_tmp_ok o) (PathLib.parent tmp_path);;
  match download o with
  | DlRefused e => raise e
  | DlBroken written e =>
      emits (EvOpen tmp_path :: (EvWrite tmp_path <$> written));;
      raise e
  | DlDone chunks => emits (EvOpen tmp_path :: (EvWrite tmp_path <$> chunks))
  end.

Definition delete_object (o : Oracle) (key : string) : M unit :=
  match delete_outcome o with
  | DelOk => emit (EvDeleteObject key)
  | DelClientError => raise ClientError
  | DelFails e => raise e
  end.

End S3Client.

(** The bytes of the object a download delivers. *)
Definition object_bytes (chunks : list string) : string :=
  foldr String.append "" chunks.

(* ===================================================================== *)
(** * Core logic: the fetch worker, the poll cycle and the polling loop *)
(* ===================================================================== *)

Section Engine.

Variable json_dumps : gmap string string → string.
Variable cfg : Config.

(** [target_path.with_suffix(target_path.suffix + ".part")] *)
Definition tmp_path_of (target_path : Path) : exn + Path :=
  PathLib.with_suffix target_path (PathLib.suffix target_path +:+ ".part").

(** The [try] block of [worker_download] (lines 200-213). *)
Definition worker_try (o : Oracle) (key etag : string)
    (target_path tmp_path : Path) : M bool :=
  logging INFO (MsgDownloading key target_path);;
  S3Client.download_to_temp o tmp_path;;
  ensure_dir (mkdir_target_ok o) (PathLib.parent target_path);;
  (if replace_ok o then emit (EvReplace tmp_path target_path)
   else raise OSError);;
  StateStore.set key etag;;
  StateStore.save json_dumps cfg (save_outcome o);;
  (if DELETE_AFTER_DOWNLOAD cfg then
     try_except is_ClientError
       (S3Client.delete_object o key;; logging INFO (MsgDeleted key))
       (fun _ => logging WARNING (MsgDeleteFailed key))
   else mret ());;
  mret true.

(** The [except Exception] block of [worker_download] (lines 214-222). *)
Definition worker_except (o : Oracle) (key : string) (tmp_path : Path)
    (e : exn) : M bool :=
  logging ERROR (MsgFailed key e);;
  try_except any_exception
    (ex ← gets (fun s => bool_decide (is_Some (fs s !! tmp_path)));
     if ex : bool then
       (if unlink_ok o then emit (EvUnlink tmp_path) else raise OSError)
     else mret ())
    (fun _ => mret ());;
  mret false.

Definition worker_download (o : Oracle) (obj : S3Object) : M bool :=
  let key := Key obj in
  let etag := etag_of obj in
  skip ← StateStore.has key etag;
  if skip : bool then
    logging DEBUG (MsgSkip key);; mret false
  else
    target_path ←
      lift (s3_key_to_local_path key (S3_PREFIX cfg) (DESTINATION_DIR cfg));
    tmp_path ← lift (tmp_path_of target_path);
    try_except any_exception
      (worker_try o key etag target_path tmp_path)
      (worker_except o key tmp_path).

(** [{o["Key"] for o in objects}] *)
Definition seen_keys (objects : list S3Object) : gset string :=
  list_to_set (Key <$> objects).

(** The filter loop of lines 289-294. *)
Definition to_download (d : gmap string string) (objects : list S3Object)
    : list S3Object :=
  filter (fun obj => has_entry d (Key obj) (etag_of obj) = false) objects.

(** The executor: the submitted calls run one after the other in the
    order of submission; what a call raises stays in its future. The
    [i]-th call meets the environment [os i]. *)
Fixpoint run_pool (os : nat → Oracle) (i : nat) (work : list S3Object)
    : M (list (exn + bool)) :=
  match work with
  | [] => mret []
  | obj :: rest =>
      r ← submit (worker_download (os i) obj);
      rs ← run_pool os (S i) rest;
      mret (r :: rs)
  end.

(** The body of the [try] of the polling loop (lines 283-303), given what
    [list(s3.list_objects())] returns or raises. *)
Definition poll (listing : exn + list S3Object) (os : nat → Oracle)
    : M unit :=
  objects ← lift listing;
  StateStore.prune (seen_keys objects);;
  work ← gets (fun s => to_download (data s) objects);
  if bool_decide (work ≠ []) then
    logging INFO (MsgFound (length work));;
    run_pool os 0 work;; mret ()
  else logging DEBUG MsgNoNew.

(** ** The polling loop and its clock *)

(** [stop_at] is the instant at which the signal handler sets
    [stop_event], if it ever does. *)
Variable stop_at : option nat.

Definition is_set (t : nat) : bool :=
  match stop_at with
  | Some c => bool_decide (c ≤ t)
  | None => false
  end.

(** [time.sleep(d)] returns after [d] seconds whatever happens to the
    event: a signal handler that returns normally does not shorten it. *)
Definition time_sleep (d : nat) : M unit := emit (EvTime d).

(** [stop_event.wait(timeout)] returns as soon as the event is set, and
    after [timeout] seconds otherwise. *)
Definition stop_event_wait (timeout : nat) : M unit :=
  t ← gets now;
  emit (EvTime (if is_set t then 0
                else match stop_at with
                     | Some c => (c - t) `min` timeout
                     | None => timeout
                     end)).

(** What one turn of the loop meets: the listing, the environments of the
    workers, and the time the [try] body takes. *)
Record Tick : Type := MkTick {
  listing : exn + list S3Object;
  oracles : nat → Oracle;
  busy : nat;
}.

(** One turn of the [while] loop (lines 282-311). *)
Definition iteration (t : Tick) : M unit :=
  try_finally
    (try_except any_exception
       (emit (EvTime (busy t));; poll (listing t) (oracles t))
       (fun e =>
          if is_ClientError e then
            logging ERROR MsgS3Error;;
            time_sleep (30 `min` POLL_INTERVAL_SECONDS cfg)
          else logging ERROR (MsgUnexpected e)))
    (stop_event_wait (POLL_INTERVAL_SECONDS cfg)).

(** The loop over the turns the caller supplies; [true] when the loop has
    been left, [false] when the supplied turns are used up first. *)
Fixpoint main_loop (ticks : list Tick) : M bool :=
  match ticks with
  | [] => mret false
  | t :: rest =>
      stop ← gets (fun s => is_set (now s));
      if stop : bool then logging INFO MsgExited;; mret true
      else iteration t;; main_loop rest
  end.

End Engine.

(* ===================================================================== *)
(** * The constructor of the state store *)
(* ===================================================================== *)

(** What [json.loads] makes of a text: a mapping from strings to strings,
    another JSON value, or an error. *)
Inductive Parsed : Type :=
  | IsMapping (d : gmap string string)
  | NotAMapping
  | Malformed.

(** The state store after [__init__]: its mapping and whether the warning
    of line 106 was logged; or a [_data] that is no mapping of strings. *)
Inductive Loaded : Type :=
  | Ready (d : gmap string string) (warned : bool)
  | Foreign.

(** [StateStore.__init__] with [_load] (lines 93-107) on the files [files]:
    [mkdir_ok] says whether [ensure_dir] succeeds, [read_ok] whether
    [read_text] does. *)
Definition StateStore_init (json_loads : string → Parsed) (cfg : Config)
    (mkdir_ok read_ok : bool) (files : gmap Path string) : exn + Loaded :=
  if mkdir_ok then
    match files !! file_path cfg with
    | None => inr (Ready ∅ false)
    | Some text =>
        if read_ok then
          match json_loads text with
          | IsMapping d => inr (Ready d false)
          | NotAMapping => inr Foreign
          | Malformed => inr (Ready ∅ true)
          end
        else inr (Ready ∅ true)
    end
  else inl OSError.

(* ===================================================================== *)
(** * Vocabulary of the statements *)
(* ===================================================================== *)

(** Events that change the in-memory mapping. *)
Definition touches_data (e : Event) : Prop :=
  match e with EvSet _ _ | EvPrune _ => True | _ => False end.

(** The file operations of [StateStore.save]. *)
Definition is_save_event (e : Event) : Prop :=
  match e with
  | EvSaveOpen _ | EvSaveWrite _ _ | EvSaveReplace _ _ => True
  | _ => False
  end.

Global Instance touches_data_dec e : Decision (touches_data e).
Proof. destruct e; simpl; apply _. Defined.

Global Instance is_save_event_dec e : Decision (is_save_event e).
Proof. destruct e; simpl; apply _. Defined.

(** Events that neither change the mapping nor belong to a save. *)
Definition quiet (e : Event) : Prop := ¬ touches_data e ∧ ¬ is_save_event e.

(** Events that do not change the mapping. *)
Definition no_set (e : Event) : Prop := ¬ touches_data e.

(** The effects of a fetch up to and including the rename. *)
Definition fetch_events (key : string) (target tmp : Path) (chunks : list string)
    : list Event :=
  [EvLog INFO (MsgDownloading key target); EvMkdir (PathLib.parent tmp);
   EvOpen tmp] ++ (EvWrite tmp <$> chunks) ++
  [EvMkdir (PathLib.parent target); EvReplace tmp target].

(** The temporary file of [save]: [state.tmp] next to [state.json]. *)
Definition state_tmp (cfg : Config) : Path :=
  PathLib.joinpath (state_dir cfg) "state.tmp".

(** The effects of [write_text]: the file is opened, then filled character
    by character. *)
Definition save_writes (tmp : Path) (text : string) : list Event :=
  EvSaveOpen tmp :: (EvSaveWrite tmp <$> Str.chars text).

(** Events that leave the file at [p] alone. *)
Definition keeps_file (p : Path) (e : Event) : Prop :=
  match e with
  | EvOpen q | EvSaveOpen q | EvWrite q _ | EvSaveWrite q _ | EvUnlink q => q ≠ p
  | EvReplace a b | EvSaveReplace a b => a ≠ p ∧ b ≠ p
  | _ => True
  end.

(** ** Concrete inputs of the examples *)

Definition demo_root : Path := PathLib.of_string "/data".

(** A stand-in for [json.dumps] in the examples. *)
Definition demo_dumps (d : gmap string string) : string :=
  Str.join "," ((fun kv => kv.1 +:+ "=" +:+ kv.2) <$> map_to_list d).

Definition demo_cfg : Config := MkConfig "" demo_root false 30.

Definition empty_store : Store := MkStore ∅ ∅ [] 0.

Definition obj_part : S3Object := MkObj "a.txt.part" (Some "v1").

Definition obj_a : S3Object := MkObj "a.txt" (Some "v7").

Definition target_part : Path := MkPath "/" ["data"; "a.txt.part"].

Definition target_a : Path := MkPath "/" ["data"; "a.txt"].

(** The environment of a pool of two workers: the first downloads
    [a.txt.part], the second [a.txt] in two chunks. *)
Definition two_downloads (i : nat) : Oracle :=
  match i with
  | 0 => all_ok ["PART-FILE"]
  | _ => all_ok ["AAAA"; "BBBB"]
  end.

(** A turn whose listing raises a [ClientError] at once, and a turn with an
    empty listing. *)
Definition failing_turn : Tick := MkTick (inl ClientError) (fun _ => all_ok []) 0.

Definition idle_turn : Tick := MkTick (inr []) (fun _ => all_ok []) 0.

(** A fetch of one object in two chunks, and the effects of its run up to
    and including the set. *)
Definition demo_obj : S3Object := MkObj "a/file1.txt" (Some "v1").

Definition demo_run : M bool :=
  worker_download demo_dumps demo_cfg (all_ok ["he"; "llo"]) demo_obj.

Definition demo_crash : list Event := take 8 (events demo_run empty_store).

(** A listing of two objects. *)
Definition demo_listing : list S3Object :=
  [MkObj "a/file1.txt" (Some "v1"); MkObj "b" (Some "v2")].

(** The in-memory mapping after [prune(keep)]. *)
Definition pruned (keep : gset string) (d : gmap string string)
    : gmap string string :=
  filter (fun kv => kv.1 ∈ keep) d.

(** The work set of a cycle on [objects] that starts with the mapping [d]. *)
Definition work_set (objects : list S3Object) (d : gmap string string)
    : list S3Object :=
  to_download (pruned (seen_keys objects) d) objects.

(** Every call of the pool either finds its entry already recorded or
    returns [True]. *)
Fixpoint pool_succeeds (jd : gmap string string → string) (cfg : Config)
    (os : nat → Oracle) (i : nat) (work : list S3Object) (s : Store) : Prop :=
  match work with
  | [] => True
  | obj :: rest =>
      let w := worker_download jd cfg (os i) obj s in
      (has_entry (data s) (Key obj) (etag_of obj) = true ∨ w.1 = inr true) ∧
      pool_succeeds jd cfg os (S i) rest (replay s w.2)
  end.

(** The store in which the pool of a cycle starts. *)
Definition after_prune (objects : list S3Object) (s : Store) : Store :=
  let s1 := final (StateStore.prune (seen_keys objects)) s in
  replay s1 [EvLog INFO (MsgFound (length (to_download (data s1) objects)))].

(** All fetches of the cycle on [objects] succeed. *)
Definition all_fetched (jd : gmap string string → string) (cfg : Config)
    (objects : list S3Object) (os : nat → Oracle) (s : Store) : Prop :=
  pool_succeeds jd cfg os 0 (work_set objects (data s)) (after_prune objects s).

(** No identifier is listed with two fingerprints. *)
Definition consistent (objects : list S3Object) : Prop :=
  ∀ o1 o2, o1 ∈ objects → o2 ∈ objects → Key o1 = Key o2 →
           etag_of o1 = etag_of o2.

Global Instance pool_succeeds_dec jd cfg os i work s :
  Decision (pool_succeeds jd cfg os i work s).
Proof.
  revert i s. induction work as [|obj rest IH]; intros i s; simpl; apply _.
Defined.

Global Instance all_fetched_dec jd cfg objects os s :
  Decision (all_fetched jd cfg objects os s).
Proof. unfold all_fetched. apply _. Defined.

Global Instance consistent_dec objects : Decision (consistent objects).
Proof.
  refine (cast_if (decide (Forall (fun o1 =>
            Forall (fun o2 => Key o1 = Key o2 → etag_of o1 = etag_of o2)
                   objects) objects)));
    unfold consistent.
  - intros o1 o2 H1 H2. rewrite Forall_forall in f. specialize (f o1 H1).
    rewrite Forall_forall in f. by apply f.
  - intros H. apply n. apply Forall_forall. intros o1 H1.
    apply Forall_forall. intros o2 H2. by apply H.
Defined.

(** Idempotence for every listing: a second cycle on the same listing has
    no work. *)
Definition idempotent_cycle (jd : gmap string string → string) (cfg : Config)
    (objects : list S3Object) (os : nat → Oracle) (s : Store) : Prop :=
  all_fetched jd cfg objects os s →
  work_set objects (data (final (poll jd cfg (inr objects) os) s)) = [].

(** Last occurrence wins: the last occurrence of an identifier in the
    listing gives the fingerprint recorded for it. *)
Definition last_occurrence_wins (jd : gmap string string → string)
    (cfg : Config) (objects : list S3Object) (os : nat → Oracle) (s : Store)
    : Prop :=
  all_fetched jd cfg objects os s →
  ∀ before obj after, objects = before ++ obj :: after →
    (∀ o, o ∈ after → Key o ≠ Key obj) →
    data (final (poll jd cfg (inr objects) os) s) !! Key obj
      = Some (etag_of obj).

(** Prune, then persist: after the prune of the cycle the controller
    persists, so the document on disk is the pruned mapping when the cycle
    ends. *)
Definition prune_then_persist (jd : gmap string string → string)
    (cfg : Config) (objects : list S3Object) (os : nat → Oracle) (s : Store)
    : Prop :=
  let run := poll jd cfg (inr objects) os in
  (∃ l1 l2 l3 tmp,
     events run s = l1 ++ EvPrune (seen_keys objects)
                       :: l2 ++ EvSaveReplace tmp (file_path cfg) :: l3) ∧
  fs (final run s) !! file_path cfg = Some (jd (data (final run s))).

(** A listing with one identifier under two fingerprints. *)
Definition twice_listed : list S3Object :=
  [MkObj "a" (Some "v1"); MkObj "a" (Some "v2")].

(** Every fetch succeeds and delivers the one chunk [x]. *)
Definition fetch_ok (_ : nat) : Oracle := all_ok ["x"].

(** A store that remembers [a] at [v2], in memory and on disk. *)
Definition store_a_v2 : Store :=
  MkStore {[file_path demo_cfg := demo_dumps {["a" := "v2"]}]}
          {["a" := "v2"]} [] 0.

(** The prune of the state store. *)
Definition is_prune (e : Event) : Prop :=
  match e with EvPrune _ => True | _ => False end.

(** Every save event of [evs] comes after a set. *)
Definition save_after_set (evs : list Event) : Prop :=
  ∀ l1 l2 e, evs = l1 ++ e :: l2 → is_save_event e → ∃ k v, EvSet k v ∈ l1.

(** The fetch of an item fails in one of the steps before the set. *)
Definition fetch_fails (o : Oracle) : Prop :=
  mkdir_tmp_ok o = false ∨ (∃ e, download o = DlRefused e) ∨
  (∃ w e, download o = DlBroken w e) ∨
  mkdir_target_ok o = false ∨ replace_ok o = false.

(** Events of a failed fetch: they touch no file but the temporary one. *)
Definition only_tmp (tmp : Path) (e : Event) : Prop :=
  match e with
  | EvMkdir _ | EvLog _ _ => True
  | EvOpen p | EvWrite p _ | EvUnlink p => p = tmp
  | _ => False
  end.

(** In the stack of [normpath] the parent steps lie at the bottom. *)
Fixpoint dots_at_bottom (st : list string) : Prop :=
  match st with
  | [] => True
  | c :: r => (c = ".." → Forall (fun d => d = "..") r) ∧ dots_at_bottom r
  end.

(** A component that [normpath] keeps: not empty, not [.], no separator. *)
Definition plain_comp (c : string) : Prop :=
  c ≠ "" ∧ c ≠ "." ∧ Str.contains "/" c = false.

(** ** Vocabulary of the further properties *)

(** The key without its prefix, as lines 174-177 leave it. *)
Definition strip_prefix_slash (r : string) : string :=
  if Str.startswith r "/" then Str.drop 1 r else r.

(** The double quote, and a string between double quotes. *)
Definition dquote : ascii := "034".
Definition quoted (e : string) : string := String dquote (e +:+ String dquote "").

(** The steps of a call of the worker on the key [key] with the target path
    [target] and the temporary path [tmp]. *)
Definition worker_step (cfg : Config) (key : string) (target tmp : Path)
    (e : Event) : Prop :=
  match e with
  | EvLog _ _ | EvMkdir _ => True
  | EvOpen q | EvWrite q _ | EvUnlink q => q = tmp
  | EvReplace a b => a = tmp ∧ b = target
  | EvSet k _ | EvDeleteObject k => k = key
  | EvSaveOpen q | EvSaveWrite q _ => q = state_tmp cfg
  | EvSaveReplace a b => a = state_tmp cfg ∧ b = file_path cfg
  | EvPrune _ | EvTime _ => False
  end.

(** The paths a call of the worker on [obj] may touch: the two state files,
    the target path of the object and its temporary path. *)
Definition touched (cfg : Config) (obj : S3Object) (p : Path) : Prop :=
  p = file_path cfg ∨ p = state_tmp cfg ∨
  ∃ target,
    s3_key_to_local_path (Key obj) (S3_PREFIX cfg) (DESTINATION_DIR cfg)
      = inr target ∧
    (p = target ∨ tmp_path_of target = inr p).

(** Every step of the fetch up to the rename succeeds and delivers
    [chunks]. *)
Definition fetch_succeeds (o : Oracle) (chunks : list string) : Prop :=
  mkdir_tmp_ok o = true ∧ download o = DlDone chunks ∧
  mkdir_target_ok o = true ∧ replace_ok o = true.

(** Lines 207-212 of the worker. *)
Definition delete_block (cfg : Config) (o : Oracle) (key : string) : M unit :=
  if DELETE_AFTER_DOWNLOAD cfg then
    try_except is_ClientError
      (S3Client.delete_object o key;; logging INFO (MsgDeleted key))
      (fun _ => logging WARNING (MsgDeleteFailed key))
  else mret ().


Definition remote_or_log (e : Event) : Prop :=
  match e with EvDeleteObject _ | EvLog _ _ => True | _ => False end.

(** The effects of a fetch, the recording of the fingerprint and a
    successful [save]. *)
Definition recorded_run (jd : gmap string string → string) (cfg : Config)
    (obj : S3Object) (s : Store) (target tmp : Path) (chunks : list string)
    : list Event :=
  (fetch_events (Key obj) target tmp chunks
   ++ [EvSet (Key obj) (etag_of obj)])
  ++ save_writes (state_tmp cfg) (jd (<[Key obj := etag_of obj]> (data s)))
  ++ [EvSaveReplace (state_tmp cfg) (file_path cfg)].

(** Effects that write the temporary file of the state store. *)
Definition writes_state_tmp (cfg : Config) (e : Event) : Prop :=
  match e with
  | EvSaveOpen q | EvSaveWrite q _ => q = state_tmp cfg
  | _ => False
  end.

(** Effects other than the deletion of a remote object. *)
Definition local_effect (e : Event) : Prop :=
  match e with EvDeleteObject _ => False | _ => True end.

(** The effects of a call in which every step succeeds and the remote
    object is deleted. *)
Definition full_run (jd : gmap string string → string) (cfg : Config)
    (obj : S3Object) (s : Store) (target tmp : Path) (chunks : list string)
    : list Event :=
  fetch_events (Key obj) target tmp chunks
  ++ [EvSet (Key obj) (etag_of obj)]
  ++ (save_writes (state_tmp cfg) (jd (<[Key obj := etag_of obj]> (data s)))
      ++ [EvSaveReplace (state_tmp cfg) (file_path cfg)])
  ++ [EvDeleteObject (Key obj); EvLog INFO (MsgDeleted (Key obj))].

(** Effects that let no time pass. *)
Definition timeless (e : Event) : Prop :=
  match e with EvTime _ => False | _ => True end.

(** Effects of the loop itself: log records and the passing of time. *)
Definition log_or_time (e : Event) : Prop :=
  match e with EvLog _ _ | EvTime _ => True | _ => False end.

(** What the handlers of the loop do with the outcome of the [try] body. *)
Definition handler_events (cfg : Config) (r : exn + unit) : list Event :=
  match r with
  | inl e =>
      if is_ClientError e
      then [EvLog ERROR MsgS3Error; EvTime (30 `min` POLL_INTERVAL_SECONDS cfg)]
      else [EvLog ERROR (MsgUnexpected e)]
  | inr _ => []
  end.

(** The length of [stop_event.wait(timeout)] that starts at the instant
    [t]. *)
Definition wait_length (stop_at : option nat) (t timeout : nat) : nat :=
  match stop_at with
  | Some c => if bool_decide (c ≤ t) then 0 else (c - t) `min` timeout
  | None => timeout
  end.

(** ** Concrete inputs of the further examples *)

(** The target path and the temporary path of [a/file1.txt]. *)
Definition demo_target : Path := MkPath "/" ["data"; "a"; "file1.txt"].

Definition demo_tmp : Path := MkPath "/" ["data"; "a"; "file1.txt.part"].

(** A path of no listed object. *)
Definition outside_path : Path := MkPath "/" ["data"; "other.txt"].

(** The configuration of the examples with the deletion switched on. *)
Definition delete_cfg : Config := MkConfig "" demo_root true 30.


Definition delete_fails : Oracle :=
  MkOracle true (DlDone ["he"; "llo"]) true true SaveOk (DelFails OSError) true.

Definition download_breaks : Oracle :=
  MkOracle true (DlBroken ["he"] ClientError) true true SaveOk DelOk true.

(** A stand-in for [json.loads] in the examples: it reads the documents of
    two mappings. *)
Definition demo_loads (text : string) : Parsed :=
  if bool_decide (text = demo_dumps {["a" := "v2"]})
  then IsMapping {["a" := "v2"]}
  else if bool_decide (text = demo_dumps ∅) then IsMapping ∅
  else Malformed.

(** A store whose state file is older than the mapping in memory. *)
Definition store_stale : Store :=
  MkStore {[file_path demo_cfg := demo_dumps ∅]} {["a" := "v2"]} [] 0.

(** A save of this store, stopped after the first character of the
    document has been written. *)
Definition stale_crash : list Event :=
  take 2 (events (StateStore.save demo_dumps demo_cfg SaveOk) store_stale).

(** An object that [store_a_v2] records. *)
Definition recorded_obj : S3Object := MkObj "a" (Some "v2").

(** A turn with an empty listing whose work takes two seconds. *)
Definition busy_turn : Tick := MkTick (inr []) (fun _ => all_ok []) 2.

(* ===================================================================== *)
(** * Proofs *)
(* ===================================================================== *)

(** ** The embedding on concrete inputs *)

Example normpath_collapses : PosixPath.normpath "a/./b/../c//d/" = "a/c/d".
Proof. reflexivity. Qed.

Example normpath_keeps_leading_parent_steps :
  PosixPath.normpath "x/../../etc/passwd" = "../etc/passwd".
Proof. reflexivity. Qed.

Example normpath_two_slashes : PosixPath.normpath "//a/../../b" = "//b".
Proof. reflexivity. Qed.

Example mapper_strips_prefix :
  s3_key_to_local_path "up/a\file1.txt" "up" demo_root
  = inr (MkPath "/" ["data"; "a"; "file1.txt"]).
Proof. reflexivity. Qed.

Example mapper_rejects_traversal :
  s3_key_to_local_path "../../etc/passwd" "" demo_root
  = inl (ValueError "Unsafe key path: ../../etc/passwd").
Proof. reflexivity. Qed.

Example etag_is_unquoted :
  etag_of (MkObj "a" (Some (String "034" ("v1" +:+ String "034" "")))) = "v1".
Proof. reflexivity. Qed.

(** Scenario A of the specification: one new object, an empty state. *)
Example scenario_new_object :
  let s1 := final (poll demo_dumps demo_cfg
                     (inr [MkObj "a/file1.txt" (Some "v1")]) fetch_ok)
              empty_store in
  fs s1 !! MkPath "/" ["data"; "a"; "file1.txt"] = Some "x" ∧
  data s1 = {["a/file1.txt" := "v1"]} ∧
  fs s1 !! file_path demo_cfg = Some "a/file1.txt=v1".
Proof. repeat split; vm_compute; reflexivity. Qed.

(** Scenarios B and C: the same fingerprint is not fetched again, a new
    fingerprint is. *)
Example scenario_unchanged_and_changed :
  work_set [MkObj "a" (Some "v2")] (data store_a_v2) = [] ∧
  work_set [MkObj "a" (Some "v3")] (data store_a_v2) = [MkObj "a" (Some "v3")].
Proof. split; vm_compute; reflexivity. Qed.

(** ** Replay *)

Lemma replay_app s a b : replay s (a ++ b) = replay (replay s a) b.
Proof. apply foldl_app. Qed.

Lemma replay_cons s e l : replay s (e :: l) = replay (apply_event s e) l.
Proof. reflexivity. Qed.

Lemma apply_event_data s e : ¬ touches_data e → data (apply_event s e) = data s.
Proof. destruct e; simpl; try done; intros _. by case_bool_decide. Qed.

Lemma replay_data s evs :
  Forall (fun e => ¬ touches_data e) evs → data (replay s evs) = data s.
Proof.
  revert s. induction evs as [|e evs IH]; intros s Hall; [done|].
  inversion_clear Hall. rewrite replay_cons, IH by done.
  by apply apply_event_data.
Qed.

Lemma split_unique_before {A} (P : A → Prop) (a : list A) x b l1 y l2 :
  a ++ x :: b = l1 ++ y :: l2 → P y →
  Forall (fun e => ¬ P e) a → Forall (fun e => ¬ P e) b →
  l1 = a ∧ y = x ∧ l2 = b.
Proof.
  revert l1. induction a as [|c a IH]; intros [|d l1] Heq Hy Ha Hb; simplify_eq/=.
  - done.
  - exfalso. assert (y ∈ l1 ++ y :: l2) as Hin
      by (apply elem_of_app; right; by left).
    rewrite Forall_forall in Hb. by apply (Hb y).
  - inversion_clear Ha. done.
  - inversion_clear Ha. destruct (IH l1) as (-> & -> & ->); done.
Qed.

Lemma split_after {A} (a : list A) x b l1 y l2 :
  a ++ x :: b = l1 ++ y :: l2 → y ∉ a → y ≠ x → x ∈ l1.
Proof.
  revert l1. induction a as [|c a IH]; intros [|d l1] Heq Hy Hne; simplify_eq/=.
  - by left.
  - exfalso. apply Hy. by left.
  - apply elem_of_cons. right.
    eapply IH; [done| intros ?; apply Hy; by right | done].
Qed.

(** ** Runs of the fetch worker *)

Ltac run_monad :=
  unfold mbind, mret, M_bind, M_ret, bind, ret, raise, emit, emits, gets, lift,
    try_except, try_finally, submit, logging.

Lemma save_events jd cfg o s :
  Forall no_set (StateStore.save jd cfg o s).2.
Proof.
  unfold StateStore.save, StateStore.write_text. run_monad.
  destruct (PathLib.with_suffix _ _) as [e|tmp]; simpl; [done|].
  destruct o; simpl; rewrite ?app_nil_r;
    repeat first [ apply Forall_cons; split; [unfold no_set; simpl; tauto|]
                 | apply Forall_app; split
                 | apply Forall_nil_2
                 | apply Forall_fmap, Forall_true; intros ?; unfold no_set; simpl; tauto ].
Qed.

Lemma worker_except_events o key tmp e s :
  Forall quiet (worker_except o key tmp e s).2.
Proof.
  unfold worker_except. run_monad. simpl.
  case_bool_decide; simpl; [destruct (unlink_ok o); simpl|];
    repeat (apply Forall_cons; split; [unfold quiet; simpl; tauto|]); done.
Qed.

Ltac quiet_solve :=
  repeat first
    [ apply Forall_nil_2
    | apply Forall_cons; split; [unfold quiet, no_set; simpl; tauto|]
    | apply Forall_app; split
    | apply Forall_fmap, Forall_true; intros ?; unfold quiet, no_set; simpl; tauto
    | assumption ].

Lemma delete_events (b : bool) o key s :
  Forall no_set
    ((if b then
       try_except is_ClientError
         (S3Client.delete_object o key;; logging INFO (MsgDeleted key))
         (fun _ => logging WARNING (MsgDeleteFailed key))
     else mret ()) s).2.
Proof.
  destruct b; [|quiet_solve].
  unfold S3Client.delete_object. run_monad.
  destruct (delete_outcome o) as [| |e]; simpl; [quiet_solve..|].
  destruct (is_ClientError e); simpl; quiet_solve.
Qed.

Lemma worker_try_run jd cfg o key etag target tmp s :
  let pre := [EvLog INFO (MsgDownloading key target); EvMkdir (PathLib.parent tmp);
              EvOpen tmp] in
  (Forall quiet (worker_try jd cfg o key etag target tmp s).2 ∧
   ∃ e, (worker_try jd cfg o key etag target tmp s).1 = inl e)
  ∨ (∃ chunks B, download o = DlDone chunks ∧
       (worker_try jd cfg o key etag target tmp s).2 =
         (pre ++ (EvWrite tmp <$> chunks) ++
            [EvMkdir (PathLib.parent target); EvReplace tmp target])
         ++ EvSet key etag :: B ∧
       Forall no_set B ∧
       ((worker_try jd cfg o key etag target tmp s).1 = inr true ∨
        ∃ e, (worker_try jd cfg o key etag target tmp s).1 = inl e)).
Proof.
  intros pre. unfold worker_try, S3Client.download_to_temp, ensure_dir, StateStore.set.
  pose proof (save_events jd cfg (save_outcome o)) as Hsave.
  pose proof (delete_events (DELETE_AFTER_DOWNLOAD cfg) o key) as Hdel.
  revert Hsave Hdel.
  generalize (StateStore.save jd cfg (save_outcome o)).
  generalize (if DELETE_AFTER_DOWNLOAD cfg then
       try_except is_ClientError
         (S3Client.delete_object o key;; logging INFO (MsgDeleted key))
         (fun _ => logging WARNING (MsgDeleteFailed key))
     else mret ()).
  intros dl sv Hsave Hdel. run_monad. simpl.
  destruct (mkdir_tmp_ok o); simpl; [|left; split; [quiet_solve|eauto]].
  destruct (download o) as [e|w e|chunks] eqn:Hdl; simpl;
    [left; split; [quiet_solve|eauto]..|].
  destruct (mkdir_target_ok o); simpl; [|left; split; [quiet_solve|eauto]].
  destruct (replace_ok o); simpl; [|left; split; [quiet_solve|eauto]].
  right. exists chunks.
  match goal with |- context [sv ?s'] =>
    specialize (Hsave s'); destruct (sv s') as [[e|[]] sevs] end; simpl in *.
  - eexists. split; [done|]. split; [|split; [|eauto]].
    + rewrite <- !app_assoc. simpl. reflexivity.
    + done.
  - match goal with |- context [dl ?s'] =>
      specialize (Hdel s'); destruct (dl s') as [[e|[]] devs] end; simpl in *.
    + eexists. split; [done|]. split; [|split; [|eauto]].
      * rewrite <- !app_assoc. simpl. reflexivity.
      * quiet_solve.
    + eexists. split; [done|]. split; [|split; [|eauto]].
      * rewrite <- !app_assoc. simpl. reflexivity.
      * quiet_solve.
Qed.

Lemma worker_download_run jd cfg o obj s :
  let key := Key obj in
  let etag := etag_of obj in
  let w := worker_download jd cfg o obj s in
  (Forall quiet w.2 ∧ w.1 ≠ inr true)
  ∨ (∃ target tmp chunks B,
       s3_key_to_local_path key (S3_PREFIX cfg) (DESTINATION_DIR cfg) = inr target ∧
       tmp_path_of target = inr tmp ∧
       download o = DlDone chunks ∧
       has_entry (data s) key etag = false ∧
       w.2 = fetch_events key target tmp chunks ++ EvSet key etag :: B ∧
       Forall no_set B ∧
       (w.1 = inr true ∨ w.1 = inr false)).
Proof.
  intros key etag w. subst w. unfold worker_download, StateStore.has.
  fold key etag.
  destruct (has_entry (data s) key etag) eqn:Hhas.
  { left. run_monad. simpl. rewrite Hhas. simpl. split; quiet_solve; done. }
  destruct (s3_key_to_local_path key _ _) as [e|target] eqn:Hpath.
  { left. run_monad. simpl. rewrite Hhas. simpl. split; quiet_solve; done. }
  destruct (tmp_path_of target) as [e|tmp] eqn:Htmp.
  { left. run_monad. simpl. rewrite Hhas. simpl. rewrite Htmp. simpl.
    split; quiet_solve; done. }
  pose proof (worker_try_run jd cfg o key etag target tmp s) as Htry.
  run_monad. simpl. rewrite Hhas. simpl. rewrite Htmp. simpl.
  simpl in Htry.
  destruct (worker_try jd cfg o key etag target tmp s) as [[e|b] tevs] eqn:Ht;
    simpl in *.
  - pose proof (worker_except_events o key tmp e (replay s tevs)) as Hexc.
    assert (Hr : (worker_except o key tmp e (replay s tevs)).1 = inr false).
    { unfold worker_except. run_monad. simpl.
      case_bool_decide; simpl; [destruct (unlink_ok o)|]; done. }
    destruct (worker_except o key tmp e (replay s tevs)) as [r hevs] eqn:Hh.
    simpl in *. subst r.
    destruct Htry as [[Hq _]|(chunks & B & Hdl & -> & HB & _)].
    + left. split; [quiet_solve|done].
    + right. exists target, tmp, chunks, (B ++ hevs).
      repeat split; try done.
      * unfold fetch_events. repeat (rewrite <- ?app_assoc; simpl). reflexivity.
      * apply Forall_app. split; [done|].
        eapply Forall_impl; [exact Hexc|]. by intros ? [? ?].
      * by right.
  - destruct Htry as [[_ [e ?]]|(chunks & B & Hdl & -> & HB & Hres)]; [done|].
    right. exists target, tmp, chunks, B.
    repeat split; try done.
    destruct Hres as [?|[? ?]]; [|done]. left. by simplify_eq.
Qed.

Lemma append_cons x (a b : string) : String x a +:+ b = String x (a +:+ b).
Proof. reflexivity. Qed.

Lemma append_assoc (a b c : string) : (a +:+ b) +:+ c = a +:+ (b +:+ c).
Proof. induction a as [|x a IH]; [done|]. rewrite !append_cons. by f_equal. Qed.

Lemma append_nil_r (a : string) : a +:+ "" = a.
Proof. induction a as [|x a IH]; [done|]. rewrite append_cons. by f_equal. Qed.

Lemma replay_fs_writes s p chunks c :
  fs s !! p = Some c →
  fs (replay s (EvWrite p <$> chunks)) = <[p := c +:+ object_bytes chunks]> (fs s).
Proof.
  revert s c. induction chunks as [|ch chunks IH]; intros s c Hc; simpl.
  - rewrite append_nil_r. by rewrite insert_id.
  - rewrite (IH _ (c +:+ ch)).
    + simpl. unfold fs_write. rewrite Hc. simpl.
      by rewrite insert_insert_eq, append_assoc.
    + simpl. unfold fs_write. rewrite Hc. simpl. apply lookup_insert_eq.
Qed.

Lemma replay_fs_download s p chunks :
  fs (replay s (EvOpen p :: (EvWrite p <$> chunks)))
  = <[p := object_bytes chunks]> (fs s).
Proof.
  rewrite replay_cons, (replay_fs_writes _ _ _ "").
  - simpl. unfold fs_open. by rewrite insert_insert_eq.
  - simpl. apply lookup_insert_eq.
Qed.

Lemma replay_fs_fetch s key target tmp chunks :
  fs (replay s (fetch_events key target tmp chunks))
  = <[target := object_bytes chunks]> (delete tmp (fs s)).
Proof.
  change (fetch_events key target tmp chunks)
    with ([EvLog INFO (MsgDownloading key target); EvMkdir (PathLib.parent tmp)]
          ++ (EvOpen tmp :: (EvWrite tmp <$> chunks))
          ++ [EvMkdir (PathLib.parent target); EvReplace tmp target]).
  rewrite !replay_app.
  set (s1 := replay s _).
  assert (fs s1 = fs s) as Hs1 by (subst s1; reflexivity).
  set (s2 := replay s1 _).
  assert (fs s2 = <[tmp := object_bytes chunks]> (fs s)) as Hs2
    by (subst s2; by rewrite replay_fs_download, Hs1).
  simpl. unfold fs_replace.
  by rewrite Hs2, lookup_insert_eq, delete_insert_eq.
Qed.

Lemma fetch_events_quiet key target tmp chunks :
  Forall quiet (fetch_events key target tmp chunks).
Proof. unfold fetch_events. quiet_solve. Qed.

Lemma quiet_no_set evs : Forall quiet evs → Forall no_set evs.
Proof. intros H. eapply Forall_impl; [exact H|]. by intros ? [? ?]. Qed.

(** C1. Whatever the environment does to a call of [worker_download], at
    every point at which the run can stop (every prefix of its effects):
    while no set has happened the in-memory mapping is the initial one; a
    set is the set of this item's identifier and fingerprint, it happens
    only when the re-check found no such entry, the download delivered the
    whole object and the temporary file has been renamed onto the target
    path, which holds the complete object at that moment; and every file
    operation of [save] comes after the set. *)
Theorem worker_download_records_after_rename jd cfg o obj s pre :
  pre `prefix_of` events (worker_download jd cfg o obj) s →
  ((∀ k v, EvSet k v ∉ pre) →
     data (replay s pre) = data s ∧
     (has_entry (data s) (Key obj) (etag_of obj) = false →
      has_entry (data (replay s pre)) (Key obj) (etag_of obj) = false)) ∧
  (∀ l1 l2 k v, pre = l1 ++ EvSet k v :: l2 →
     k = Key obj ∧ v = etag_of obj ∧
     has_entry (data s) (Key obj) (etag_of obj) = false ∧
     ∃ target tmp chunks,
       s3_key_to_local_path (Key obj) (S3_PREFIX cfg) (DESTINATION_DIR cfg)
         = inr target ∧
       tmp_path_of target = inr tmp ∧
       download o = DlDone chunks ∧
       EvReplace tmp target ∈ l1 ∧
       fs (replay s l1) !! target = Some (object_bytes chunks)) ∧
  (∀ l1 l2 e, pre = l1 ++ e :: l2 → is_save_event e →
     EvSet (Key obj) (etag_of obj) ∈ l1).
Proof.
  intros [rest Hpre]. unfold events in Hpre.
  destruct (worker_download_run jd cfg o obj s)
    as [[Hq _]|(target & tmp & chunks & B & Hpath & Htmp & Hdl & Hhas & Hev & HB & _)].
  - rewrite Hpre in Hq. apply Forall_app in Hq as [Hq _].
    split; [|split].
    + intros _. assert (data (replay s pre) = data s) as Hd
        by (apply replay_data; by apply quiet_no_set).
      split; [done|]. by rewrite Hd.
    + intros l1 l2 k v ->. exfalso.
      rewrite Forall_forall in Hq.
      destruct (Hq (EvSet k v)); [apply elem_of_app; right; by left|].
      by simpl in *.
    + intros l1 l2 e -> He. exfalso.
      rewrite Forall_forall in Hq.
      destruct (Hq e); [apply elem_of_app; right; by left|]. done.
  - rewrite Hpre in Hev.
    pose proof (fetch_events_quiet (Key obj) target tmp chunks) as HF.
    split; [|split].
    + intros Hno. assert (data (replay s pre) = data s) as Hd;
        [|split; [done|by rewrite Hd]].
      apply replay_data. apply Forall_forall. intros e He Ht.
      assert (e ∈ fetch_events (Key obj) target tmp chunks
                  ++ EvSet (Key obj) (etag_of obj) :: B) as Hin.
      { rewrite <- Hev. apply elem_of_app. by left. }
      apply elem_of_app in Hin as [Hin|Hin].
      * rewrite Forall_forall in HF. by destruct (HF e Hin).
      * apply elem_of_cons in Hin as [->|Hin]; [by apply Hno in He|].
        rewrite Forall_forall in HB. by apply (HB e Hin).
    + intros l1 l2 k v ->. rewrite <- app_assoc, <- app_comm_cons in Hev.
      symmetry in Hev.
      apply (split_unique_before touches_data) in Hev
        as (-> & Heq & _); [|done|by apply quiet_no_set|done].
      simplify_eq. repeat split; try done.
      exists target, tmp, chunks. repeat split; try done.
      * unfold fetch_events. apply elem_of_app. right.
        apply elem_of_app. right. right. left.
      * rewrite replay_fs_fetch. apply lookup_insert_eq.
    + intros l1 l2 e -> He. rewrite <- app_assoc, <- app_comm_cons in Hev.
      symmetry in Hev. eapply split_after; [exact Hev| |].
      * intros Hin. rewrite Forall_forall in HF. by destruct (HF e Hin).
      * intros ->. done.
Qed.

(** C1, witness: the fetch of [a/file1.txt], stopped right after the set. *)
Lemma worker_download_records_after_rename_witness :
  demo_crash `prefix_of` events demo_run empty_store ∧
  (((∀ k v, EvSet k v ∉ demo_crash) →
    data (replay empty_store demo_crash) = data empty_store ∧
    (has_entry (data empty_store) (Key demo_obj) (etag_of demo_obj) = false →
     has_entry (data (replay empty_store demo_crash)) (Key demo_obj)
       (etag_of demo_obj) = false)) ∧
   (∀ l1 l2 k v, demo_crash = l1 ++ EvSet k v :: l2 →
      k = Key demo_obj ∧ v = etag_of demo_obj ∧
      has_entry (data empty_store) (Key demo_obj) (etag_of demo_obj) = false ∧
      ∃ target tmp chunks,
        s3_key_to_local_path (Key demo_obj) (S3_PREFIX demo_cfg)
          (DESTINATION_DIR demo_cfg) = inr target ∧
        tmp_path_of target = inr tmp ∧
        download (all_ok ["he"; "llo"]) = DlDone chunks ∧
        EvReplace tmp target ∈ l1 ∧
        fs (replay empty_store l1) !! target = Some (object_bytes chunks)) ∧
   (∀ l1 l2 e, demo_crash = l1 ++ e :: l2 → is_save_event e →
      EvSet (Key demo_obj) (etag_of demo_obj) ∈ l1)).
Proof.
  split.
  - apply (bool_decide_unpack _). vm_compute. exact I.
  - apply (worker_download_records_after_rename demo_dumps demo_cfg
             (all_ok ["he"; "llo"]) demo_obj empty_store demo_crash).
    apply (bool_decide_unpack _). vm_compute. exact I.
Defined.

(** ** [StateStore.save] *)

Lemma prefix_snoc_cases {A} (pre l : list A) x :
  pre `prefix_of` l ++ [x] → pre `prefix_of` l ∨ pre = l ++ [x].
Proof.
  intros [k Hk]. destruct k as [|y k _] using rev_ind.
  - right. by rewrite app_nil_r in Hk.
  - left. rewrite app_assoc in Hk. apply app_inj_tail in Hk as [-> _].
    by exists k.
Qed.

Lemma object_bytes_chars t : object_bytes (Str.chars t) = t.
Proof. induction t as [|c t IH]; [done|]. simpl. by rewrite IH. Qed.

Lemma with_suffix_snoc r l n suf :
  PathLib.with_suffix (MkPath r (l ++ [n])) suf =
  match PathLib.with_suffix (MkPath "" [n]) suf with
  | inl e => inl e
  | inr q => inr (MkPath r (l ++ parts q))
  end.
Proof.
  unfold PathLib.with_suffix, PathLib.suffix, PathLib.name. simpl.
  rewrite last_snoc, removelast_last. simpl.
  repeat (match goal with |- context [if ?b then _ else _] => destruct b end;
          simpl; try done).
Qed.

Lemma save_tmp cfg :
  PathLib.with_suffix (file_path cfg) ".tmp" = inr (state_tmp cfg).
Proof.
  change (file_path cfg) with
    (MkPath (root (DESTINATION_DIR cfg))
       ((parts (DESTINATION_DIR cfg) ++ ["." +:+ APP_NAME +:+ "_state"])
          ++ ["state.json"])).
  rewrite with_suffix_snoc. reflexivity.
Qed.

Lemma state_tmp_sibling cfg :
  PathLib.parent (state_tmp cfg) = PathLib.parent (file_path cfg) ∧
  state_tmp cfg ≠ file_path cfg.
Proof.
  split.
  - unfold PathLib.parent. f_equal.
    change (removelast ((parts (DESTINATION_DIR cfg) ++ ["." +:+ APP_NAME +:+ "_state"]) ++ ["state.tmp"])
            = removelast ((parts (DESTINATION_DIR cfg) ++ ["." +:+ APP_NAME +:+ "_state"]) ++ ["state.json"])).
    by rewrite !removelast_last.
  - intros Heq. apply (f_equal (λ p, last (parts p))) in Heq.
    change (last ((parts (DESTINATION_DIR cfg) ++ ["." +:+ APP_NAME +:+ "_state"]) ++ ["state.tmp"])
            = last ((parts (DESTINATION_DIR cfg) ++ ["." +:+ APP_NAME +:+ "_state"]) ++ ["state.json"])) in Heq.
    rewrite !last_snoc in Heq. done.
Qed.

Lemma replay_fs_save_writes s p chunks c :
  fs s !! p = Some c →
  fs (replay s (EvSaveWrite p <$> chunks)) = <[p := c +:+ object_bytes chunks]> (fs s).
Proof.
  revert s c. induction chunks as [|ch chunks IH]; intros s c Hc; simpl.
  - rewrite append_nil_r. by rewrite insert_id.
  - rewrite (IH _ (c +:+ ch)).
    + simpl. unfold fs_write. rewrite Hc. simpl.
      by rewrite insert_insert_eq, append_assoc.
    + simpl. unfold fs_write. rewrite Hc. simpl. apply lookup_insert_eq.
Qed.

Lemma apply_event_keeps p s e :
  keeps_file p e → fs (apply_event s e) !! p = fs s !! p.
Proof.
  destruct e; simpl; try done; intros H;
    unfold fs_open, fs_write, fs_replace;
    try (by case_bool_decide);
    try (by rewrite lookup_insert_ne);
    try (by rewrite lookup_delete_ne).
  all: destruct H as [Ha Hb]; destruct (fs s !! src); [|done];
    by rewrite lookup_insert_ne, lookup_delete_ne.
Qed.

Lemma replay_keeps p s evs :
  Forall (keeps_file p) evs → fs (replay s evs) !! p = fs s !! p.
Proof.
  revert s. induction evs as [|e evs IH]; intros s Hall; [done|].
  inversion_clear Hall. rewrite replay_cons, IH by done.
  by apply apply_event_keeps.
Qed.

Lemma save_run jd cfg o s :
  let tmp := state_tmp cfg in
  let text := jd (data s) in
  StateStore.save jd cfg o s =
  match o with
  | SaveOpenFails => (inl OSError, [])
  | SaveWriteFails n =>
      (inl OSError, EvSaveOpen tmp :: (EvSaveWrite tmp <$> take n (Str.chars text)))
  | SaveReplaceFails => (inl OSError, save_writes tmp text)
  | SaveOk => (inr (), save_writes tmp text ++ [EvSaveReplace tmp (file_path cfg)])
  end.
Proof.
  unfold StateStore.save. rewrite save_tmp.
  unfold StateStore.write_text, save_writes. run_monad.
  destruct o; simpl; rewrite ?app_nil_r; try done.
Qed.

Lemma Forall_prefix {A} (P : A → Prop) (pre l : list A) :
  pre `prefix_of` l → Forall P l → Forall P pre.
Proof. intros [k ->] H. by apply Forall_app in H as [? _]. Qed.

Lemma save_writes_keep cfg n text :
  Forall (keeps_file (file_path cfg))
    (EvSaveOpen (state_tmp cfg)
       :: (EvSaveWrite (state_tmp cfg) <$> take n (Str.chars text))).
Proof.
  destruct (state_tmp_sibling cfg) as [_ Hne].
  apply Forall_cons. split; [done|].
  apply Forall_fmap, Forall_true. intros ?. done.
Qed.

Lemma replay_fs_save_full s tmp text :
  fs (replay s (save_writes tmp text)) = <[tmp := text]> (fs s).
Proof.
  unfold save_writes. rewrite replay_cons, (replay_fs_save_writes _ _ _ "").
  - simpl. unfold fs_open. by rewrite insert_insert_eq, object_bytes_chars.
  - simpl. apply lookup_insert_eq.
Qed.

(** C7. [save] computes the temporary path [state.tmp] in the directory of
    the state file, writes the whole document there and then renames it
    over the state file. Whatever fails and wherever the run stops (every
    prefix of its effects), the state file holds what it held before or the
    complete new document. *)
Theorem save_is_atomic jd cfg o s pre :
  pre `prefix_of` events (StateStore.save jd cfg o) s →
  let file := file_path cfg in
  let tmp := state_tmp cfg in
  PathLib.with_suffix file ".tmp" = inr tmp ∧
  PathLib.parent tmp = PathLib.parent file ∧
  tmp ≠ file ∧
  events (StateStore.save jd cfg SaveOk) s
    = (EvSaveOpen tmp :: (EvSaveWrite tmp <$> Str.chars (jd (data s))))
      ++ [EvSaveReplace tmp file] ∧
  fs (final (StateStore.save jd cfg SaveOk) s) !! file = Some (jd (data s)) ∧
  (fs (replay s pre) !! file = fs s !! file ∨
   fs (replay s pre) !! file = Some (jd (data s))).
Proof.
  intros Hpre file tmp.
  destruct (state_tmp_sibling cfg) as [Hpar Hne].
  assert (Hfull : fs (replay s (save_writes tmp (jd (data s))
                                  ++ [EvSaveReplace tmp file])) !! file
                  = Some (jd (data s))).
  { rewrite replay_app.
    pose proof (replay_fs_save_full s tmp (jd (data s))) as HW.
    set (s1 := replay s _) in *.
    change (fs (replay s1 [EvSaveReplace tmp file]))
      with (fs_replace tmp file (fs s1)).
    unfold fs_replace. rewrite HW, lookup_insert_eq. apply lookup_insert_eq. }
  split; [apply save_tmp|]. split; [done|]. split; [done|].
  split; [unfold events; by rewrite save_run|].
  split; [unfold final, events; by rewrite save_run|].
  unfold events in Hpre. rewrite save_run in Hpre.
  destruct o; cbv beta iota delta [snd] in Hpre.
  - apply prefix_nil_inv in Hpre as ->. by left.
  - left. apply replay_keeps. eapply Forall_prefix; [exact Hpre|].
    apply save_writes_keep.
  - left. apply replay_keeps. eapply Forall_prefix; [exact Hpre|].
    unfold save_writes. rewrite <- (take_ge (Str.chars _) (length (Str.chars (jd (data s))))) by done.
    apply save_writes_keep.
  - apply prefix_snoc_cases in Hpre as [Hpre| ->]; [left|by right].
    apply replay_keeps. eapply Forall_prefix; [exact Hpre|].
    unfold save_writes. rewrite <- (take_ge (Str.chars _) (length (Str.chars (jd (data s))))) by done.
    apply save_writes_keep.
Qed.

(** C7, witness: a save of the mapping that records [a], stopped after the
    first character of the document has been written. *)
Lemma save_is_atomic_witness :
  take 2 (events (StateStore.save demo_dumps demo_cfg SaveOk) store_a_v2)
    `prefix_of` events (StateStore.save demo_dumps demo_cfg SaveOk) store_a_v2 ∧
  (PathLib.with_suffix (file_path demo_cfg) ".tmp" = inr (state_tmp demo_cfg) ∧
   PathLib.parent (state_tmp demo_cfg) = PathLib.parent (file_path demo_cfg) ∧
   state_tmp demo_cfg ≠ file_path demo_cfg ∧
   events (StateStore.save demo_dumps demo_cfg SaveOk) store_a_v2
     = (EvSaveOpen (state_tmp demo_cfg)
          :: (EvSaveWrite (state_tmp demo_cfg)
                <$> Str.chars (demo_dumps (data store_a_v2))))
       ++ [EvSaveReplace (state_tmp demo_cfg) (file_path demo_cfg)] ∧
   fs (final (StateStore.save demo_dumps demo_cfg SaveOk) store_a_v2)
     !! file_path demo_cfg = Some (demo_dumps (data store_a_v2)) ∧
   (fs (replay store_a_v2
          (take 2 (events (StateStore.save demo_dumps demo_cfg SaveOk)
                     store_a_v2))) !! file_path demo_cfg
      = fs store_a_v2 !! file_path demo_cfg ∨
    fs (replay store_a_v2
          (take 2 (events (StateStore.save demo_dumps demo_cfg SaveOk)
                     store_a_v2))) !! file_path demo_cfg
      = Some (demo_dumps (data store_a_v2)))).
Proof.
  split.
  - apply (bool_decide_unpack _). vm_compute. exact I.
  - apply (save_is_atomic demo_dumps demo_cfg SaveOk store_a_v2).
    apply (bool_decide_unpack _). vm_compute. exact I.
Defined.

(** ** The mapper on relative paths *)

Lemma split_nonempty sep s : Str.split sep s ≠ [].
Proof. induction s as [|c s IH]; simpl; [done|]. destruct (Ascii.eqb c sep); [done|]. by destruct (Str.split sep s). Qed.

Lemma split_no_sep sep s :
  Forall (fun c => Str.contains sep c = false) (Str.split sep s).
Proof.
  induction s as [|c s IH]; simpl; [by repeat constructor|].
  destruct (Ascii.eqb c sep) eqn:E; [by constructor|].
  destruct (Str.split sep s) as [|h t]; [by repeat constructor; simpl; rewrite E|].
  inversion_clear IH. constructor; [|done]. simpl. by rewrite E.
Qed.

Lemma split_id sep a : Str.contains sep a = false → Str.split sep a = [a].
Proof.
  induction a as [|c a IH]; simpl; [done|]. intros H.
  apply orb_false_iff in H as [-> H]. by rewrite IH.
Qed.

Lemma split_app_sep sep a b :
  Str.contains sep a = false →
  Str.split sep (a +:+ String sep b) = a :: Str.split sep b.
Proof.
  induction a as [|c a IH]; intros H.
  - change ("" +:+ String sep b) with (String sep b). simpl.
    by rewrite Ascii.eqb_refl.
  - rewrite append_cons. simpl in *.
    apply orb_false_iff in H as [-> H]. by rewrite IH.
Qed.

Lemma split_join comps :
  comps ≠ [] → Forall (fun c => Str.contains "/" c = false) comps →
  Str.split "/" (Str.join "/" comps) = comps.
Proof.
  induction comps as [|c comps IH]; [done|]. intros _ Hall.
  inversion_clear Hall as [|? ? Hc Hcs].
  destruct comps as [|d comps]; [by apply split_id|].
  change (Str.join "/" (c :: d :: comps))
    with (c +:+ String "/" (Str.join "/" (d :: comps))).
  rewrite split_app_sep by done. by rewrite IH.
Qed.

Lemma norm_step_inv i st comp :
  Str.contains "/" comp = false →
  dots_at_bottom st ∧ Forall plain_comp st →
  dots_at_bottom (PosixPath.norm_step i st comp) ∧
  Forall plain_comp (PosixPath.norm_step i st comp).
Proof.
  intros Hc [Hd Hp]. unfold PosixPath.norm_step.
  destruct (bool_decide (comp = "") || bool_decide (comp = ".")) eqn:E1;
    [done|].
  apply orb_false_iff in E1 as [E1a E1b].
  apply bool_decide_eq_false in E1a, E1b.
  assert (Hpush : dots_at_bottom st ∧ Forall plain_comp st →
                  (comp = ".." → Forall (fun d => d = "..") st) →
                  dots_at_bottom (comp :: st) ∧ Forall plain_comp (comp :: st)).
  { intros [? ?] ?. split; [done|]. by constructor. }
  destruct (bool_decide (comp = "..")) eqn:E2; simpl.
  - apply bool_decide_eq_true in E2.
    destruct st as [|top st].
    + rewrite andb_true_r, orb_false_r.
      case_bool_decide; [|done]. apply Hpush; [done|]. by intros _.
    + rewrite andb_false_r. simpl.
      case_bool_decide as Etop.
      * apply Hpush; [done|]. intros _. subst top.
        destruct Hd as [Hd1 _]. constructor; [done|]. by apply Hd1.
      * destruct Hd as [_ Hd2]. by inversion_clear Hp.
  - apply bool_decide_eq_false in E2. by apply Hpush.
Qed.

Lemma norm_fold_inv i comps st :
  Forall (fun c => Str.contains "/" c = false) comps →
  dots_at_bottom st ∧ Forall plain_comp st →
  dots_at_bottom (fold_left (PosixPath.norm_step i) comps st) ∧
  Forall plain_comp (fold_left (PosixPath.norm_step i) comps st).
Proof.
  revert st. induction comps as [|c comps IH]; intros st Hall Hst; [done|].
  inversion_clear Hall. simpl. apply IH; [done|]. by apply norm_step_inv.
Qed.

Lemma dots_at_bottom_last st :
  dots_at_bottom st → ".." ∈ st → last st = Some "..".
Proof.
  induction st as [|c st IH]; intros Hd Hin; [by apply elem_of_nil in Hin|].
  destruct Hd as [Hd1 Hd2].
  destruct st as [|d st].
  - apply list_elem_of_singleton in Hin. by subst.
  - rewrite last_cons_cons. apply elem_of_cons in Hin as [<-|Hin].
    + apply IH; [done|]. specialize (Hd1 eq_refl).
      inversion_clear Hd1. subst. by left.
    + by apply IH.
Qed.

Lemma prefix_empty s : String.prefix "" s = true.
Proof. by destruct s. Qed.

Lemma join_dots_prefix rest :
  Str.startswith (Str.join "/" (".." :: rest)) ".." = true.
Proof.
  destruct rest as [|d rest]; [done|].
  change (Str.join "/" (".." :: d :: rest))
    with (String "." (String "." (String "/" (Str.join "/" (d :: rest))))).
  unfold Str.startswith. by simpl.
Qed.

Lemma repeat_sep_absolute n s :
  Str.startswith (PosixPath.repeat_sep (S n) +:+ s) "/" = true.
Proof.
  change (PosixPath.repeat_sep (S n) +:+ s)
    with (String "/" (PosixPath.repeat_sep n +:+ s)).
  unfold Str.startswith. simpl. apply prefix_empty.
Qed.

(** A normalized path that neither is absolute nor starts with a parent
    step has no parent step among its components. *)
Lemma normpath_relative_no_dots x :
  Str.startswith (PosixPath.normpath x) "/" = false →
  Str.startswith (PosixPath.normpath x) ".." = false →
  ".." ∉ PathLib.parse_parts (PosixPath.normpath x).
Proof.
  unfold PosixPath.normpath. case_bool_decide as Hx.
  { intros _ _ H. by apply elem_of_nil in H. }
  set (i := PosixPath.initial_slashes x).
  set (comps := PosixPath.norm_comps i (Str.split "/" x)).
  case_bool_decide as Hp.
  { intros _ _ H. by apply elem_of_nil in H. }
  destruct i as [|n]; [|by rewrite repeat_sep_absolute].
  change (PosixPath.repeat_sep 0 +:+ ?s) with s in *.
  intros _ Hdots.
  destruct (norm_fold_inv 0 (Str.split "/" x) [])
    as [Hd Hplain]; [apply split_no_sep|done|].
  assert (Hcomps : comps = rev (fold_left (PosixPath.norm_step 0)
                                  (Str.split "/" x) [])) by done.
  set (st := fold_left (PosixPath.norm_step 0) (Str.split "/" x) []) in *.
  assert (Hne : comps ≠ []) by (intros E; by rewrite E in Hp).
  assert (Hpc : Forall plain_comp comps).
  { rewrite Hcomps. apply Forall_forall. intros c Hc.
    rewrite Forall_forall in Hplain. apply Hplain.
    apply list_elem_of_In. apply in_rev. by apply list_elem_of_In. }
  unfold PathLib.parse_parts. rewrite split_join; [|done|].
  2:{ eapply Forall_impl; [exact Hpc|]. by intros c (_ & _ & ?). }
  intros Hin. apply list_elem_of_filter in Hin as [_ Hin].
  assert (Hst : ".." ∈ st).
  { apply list_elem_of_In, in_rev, list_elem_of_In. by rewrite <- Hcomps. }
  apply dots_at_bottom_last in Hst; [|done].
  apply last_Some in Hst as [st' Hst].
  rewrite Hcomps, Hst, rev_app_distr in Hdots.
  change (rev [".."] ++ rev st') with (".." :: rev st') in Hdots.
  by rewrite join_dots_prefix in Hdots.
Qed.

(** X1. When the relative path of a key is not absolute, the path the mapper
    returns lies in the tree under the destination root. *)
Lemma mapper_inside_root_for_relative_paths key pfx dest p :
  Str.startswith (relative_key key pfx) "/" = false →
  s3_key_to_local_path key pfx dest = inr p →
  PathLib.inside dest p.
Proof.
  unfold s3_key_to_local_path. intros Habs.
  destruct (Str.startswith (relative_key key pfx) "..") eqn:Hdots; [done|].
  intros [= <-]. unfold PathLib.joinpath, PathLib.splitroot. rewrite Habs.
  simpl. split; [done|]. eexists. split; [done|].
  unfold relative_key in *. by apply normpath_relative_no_dots.
Qed.

(** C10. The mapper raises exactly when the normalized relative path
    starts with the two characters [..]. A key with such a path is never
    fetched: the worker writes no file and records nothing for it. The key
    [..config] is one, although [dest_dir / "..config"] lies inside the
    destination root. *)
Theorem mapper_rejects_names_starting_with_two_dots key pfx dest :
  ((∃ e, s3_key_to_local_path key pfx dest = inl e)
   ↔ Str.startswith (relative_key key pfx) ".." = true) ∧
  (∀ jd cfg o etag s,
     Str.startswith (relative_key key (S3_PREFIX cfg)) ".." = true →
     result (worker_download jd cfg o (MkObj key etag)) s ≠ inr true ∧
     fs (final (worker_download jd cfg o (MkObj key etag)) s) = fs s ∧
     data (final (worker_download jd cfg o (MkObj key etag)) s) = data s) ∧
  relative_key "..config" "" = "..config" ∧
  s3_key_to_local_path "..config" "" dest
    = inl (ValueError "Unsafe key path: ..config") ∧
  PathLib.inside dest (PathLib.joinpath dest "..config").
Proof.
  split; [|split; [|split; [|split]]].
  - unfold s3_key_to_local_path.
    destruct (Str.startswith (relative_key key pfx) ".."); split; eauto.
    + intros [e ?]. done.
    + done.
  - intros jd cfg o etag s Hdots.
    unfold result, final, events, worker_download, StateStore.has,
      s3_key_to_local_path. simpl. rewrite Hdots.
    run_monad. simpl.
    destruct (has_entry (data s) key _); simpl; [|done].
    repeat split; done.
  - reflexivity.
  - reflexivity.
  - split; [reflexivity|]. exists ["..config"]. split; [reflexivity|].
    intros H. apply list_elem_of_singleton in H. discriminate H.
Qed.

(** C2. The mapper at the keys [/etc/passwd] (no prefix) and
    [up//etc/passwd] (prefix [up]): the relative path is absolute, does not
    start with [..], and the join returns [/etc/passwd], which is not in the
    tree under the destination root [/data]. *)
Theorem mapper_returns_absolute_key_outside_root :
  s3_key_to_local_path "/etc/passwd" "" demo_root
    = inr (MkPath "/" ["etc"; "passwd"]) ∧
  s3_key_to_local_path "up//etc/passwd" "up" demo_root
    = inr (MkPath "/" ["etc"; "passwd"]) ∧
  ¬ PathLib.inside demo_root (MkPath "/" ["etc"; "passwd"]).
Proof.
  split; [reflexivity|]. split; [reflexivity|].
  apply (bool_decide_unpack (¬ PathLib.inside _ _)). vm_compute. exact I.
Qed.

(** ** The temporary path and the error handler *)

Lemma len_append (a b : string) : Str.len (a +:+ b) = Str.len a + Str.len b.
Proof.
  unfold Str.len. induction a as [|x a IH]; [done|].
  rewrite append_cons. simpl. by rewrite IH.
Qed.

Lemma take_drop_append n (s : string) : Str.take n s +:+ Str.drop n s = s.
Proof.
  revert s. induction n as [|n IH]; intros [|c s]; simpl; try done.
  rewrite append_cons. by rewrite IH.
Qed.

Lemma len_drop n (s : string) : Str.len (Str.drop n s) = Str.len s - n.
Proof.
  unfold Str.len. revert s. induction n as [|n IH]; intros [|c s]; simpl; try done.
Qed.

(** The temporary path is the target path with [.part] added to its last
    component: a sibling of the target, and not the target itself. *)
Lemma tmp_path_of_sibling target tmp :
  tmp_path_of target = inr tmp →
  ∃ dir n, parts target = dir ++ [n] ∧ n ≠ "" ∧
           tmp = MkPath (root target) (dir ++ [n +:+ ".part"]) ∧
           PathLib.parent tmp = PathLib.parent target ∧
           tmp ≠ target.
Proof.
  unfold tmp_path_of, PathLib.with_suffix.
  destruct (Str.contains _ _); [done|].
  destruct (_ || _); [done|].
  case_bool_decide as Hn; [done|]. intros Htmp.
  assert (∃ dir, parts target = dir ++ [PathLib.name target]) as [dir Hdir].
  { unfold PathLib.name in *. destruct (last (parts target)) as [n|] eqn:Hl;
      [|done]. apply last_Some in Hl as [dir ->]. by exists dir. }
  set (n := PathLib.name target) in *.
  assert (Hn' : (if bool_decide (PathLib.suffix target = "")
                 then n +:+ PathLib.suffix target +:+ ".part"
                 else Str.take (Str.len n - Str.len (PathLib.suffix target)) n
                        +:+ PathLib.suffix target +:+ ".part")
                = n +:+ ".part").
  { case_bool_decide as Hs; [by rewrite Hs|].
    unfold PathLib.suffix in *. fold n in Hs |- *.
    destruct (Str.rfind "." n) as [i|]; [|done].
    destruct (bool_decide (0 < i) && bool_decide (i < Str.len n - 1)) eqn:Hi;
      [|done].
    apply andb_true_iff in Hi as [_ Hi%bool_decide_eq_true].
    rewrite len_drop. replace (Str.len n - (Str.len n - i)) with i by lia.
    by rewrite <- append_assoc, take_drop_append. }
  rewrite Hn' in Htmp. simplify_eq. exists dir, n.
  rewrite Hdir, removelast_last. repeat split; try done.
  - unfold PathLib.parent. simpl. by rewrite Hdir, !removelast_last.
  - intros Heq. apply (f_equal (fun p => last (parts p))) in Heq. simpl in Heq.
    rewrite Hdir, !last_snoc in Heq. simplify_eq.
    apply (f_equal Str.len) in Heq. rewrite len_append in Heq.
    unfold Str.len in Heq. simpl in Heq. lia.
Qed.

Lemma worker_try_fails jd cfg o key etag target tmp s :
  fetch_fails o →
  ∃ e evs, worker_try jd cfg o key etag target tmp s = (inl e, evs) ∧
           Forall (only_tmp tmp) evs.
Proof.
  intros Hf. unfold worker_try, S3Client.download_to_temp, ensure_dir,
    StateStore.set.
  generalize (StateStore.save jd cfg (save_outcome o)).
  generalize (if DELETE_AFTER_DOWNLOAD cfg then
       try_except is_ClientError
         (S3Client.delete_object o key;; logging INFO (MsgDeleted key))
         (fun _ => logging WARNING (MsgDeleteFailed key))
     else mret ()).
  intros dl sv. run_monad. simpl.
  assert (Hw : ∀ l, Forall (only_tmp tmp) (EvWrite tmp <$> l)).
  { intros l. apply Forall_fmap, Forall_true. by intros ?. }
  destruct (mkdir_tmp_ok o) eqn:H1; simpl;
    [|eexists _, _; split; [done|repeat constructor]].
  destruct (download o) as [e|w e|chunks] eqn:Hdl; simpl.
  - eexists _, _; split; [done|repeat constructor].
  - eexists _, _; split; [done|]. rewrite app_nil_r.
    repeat (apply Forall_cons; split; [done|]). apply Hw.
  - destruct (mkdir_target_ok o) eqn:H2; simpl.
    + destruct (replace_ok o) eqn:H3; simpl.
      * exfalso. destruct Hf as [?|[[? ?]|[(? & ? & ?)|[?|?]]]]; congruence.
      * eexists _, _; split; [done|].
        repeat (apply Forall_cons; split; [done|]).
        apply Forall_app. split; [apply Hw|repeat constructor].
    + eexists _, _; split; [done|].
      repeat (apply Forall_cons; split; [done|]).
      apply Forall_app. split; [apply Hw|repeat constructor].
Qed.

Lemma only_tmp_quiet tmp evs : Forall (only_tmp tmp) evs → Forall quiet evs.
Proof.
  intros H. eapply Forall_impl; [exact H|].
  intros e He. destruct e; simpl in *; try done; split; simpl; tauto.
Qed.

Lemma only_tmp_keeps tmp p evs :
  p ≠ tmp → Forall (only_tmp tmp) evs → Forall (keeps_file p) evs.
Proof.
  intros Hne H. eapply Forall_impl; [exact H|].
  intros e He. destruct e; simpl in *; try done; congruence.
Qed.

Lemma replay_log_mono s evs r : r ∈ log s → r ∈ log (replay s evs).
Proof.
  revert s. induction evs as [|e evs IH]; intros s Hr; [done|].
  rewrite replay_cons. apply IH. destruct e; simpl; try done.
  case_bool_decide; [done|]. simpl. apply elem_of_app. by left.
Qed.

(** X10. A failure of the download, of a directory creation or of the rename is
    handled inside the worker: the call returns [False], the error is
    logged, the mapping and the target file are as before and, when the
    unlink succeeds, no temporary file is left. *)
Lemma worker_download_handles_fetch_errors jd cfg o obj s target tmp :
  has_entry (data s) (Key obj) (etag_of obj) = false →
  s3_key_to_local_path (Key obj) (S3_PREFIX cfg) (DESTINATION_DIR cfg)
    = inr target →
  tmp_path_of target = inr tmp →
  fetch_fails o →
  result (worker_download jd cfg o obj) s = inr false ∧
  data (final (worker_download jd cfg o obj) s) = data s ∧
  (∃ e, (ERROR, MsgFailed (Key obj) e)
          ∈ log (final (worker_download jd cfg o obj) s)) ∧
  fs (final (worker_download jd cfg o obj) s) !! target = fs s !! target ∧
  (unlink_ok o = true →
   fs (final (worker_download jd cfg o obj) s) !! tmp = None).
Proof.
  intros Hhas Hpath Htmp Hf.
  destruct (worker_try_fails jd cfg o (Key obj) (etag_of obj) target tmp s Hf)
    as (e & evs & Htry & Hevs).
  destruct (tmp_path_of_sibling target tmp Htmp) as (_ & _ & _ & _ & _ & Hne).
  assert (Hrun : worker_download jd cfg o obj s =
    (inr false,
     evs ++ EvLog ERROR (MsgFailed (Key obj) e)
         :: if bool_decide (is_Some (fs (replay s evs) !! tmp))
            then (if unlink_ok o then [EvUnlink tmp] else [])
            else [])).
  { unfold worker_download, StateStore.has. run_monad. simpl.
    rewrite Hhas, Hpath. simpl. rewrite Htmp. simpl. rewrite Htry. simpl.
    unfold worker_except. run_monad. simpl.
    case_bool_decide; simpl; [destruct (unlink_ok o)|]; simpl; done. }
  unfold result, final, events. rewrite Hrun. simpl.
  set (cleanup := if bool_decide _ then _ else _).
  assert (Hc : Forall (only_tmp tmp) cleanup).
  { subst cleanup. case_bool_decide; [destruct (unlink_ok o)|];
      repeat constructor. }
  assert (Hall : Forall (only_tmp tmp)
                   (evs ++ EvLog ERROR (MsgFailed (Key obj) e) :: cleanup)).
  { apply Forall_app. split; [done|]. by apply Forall_cons. }
  split; [done|]. split; [|split; [|split]].
  - apply replay_data, quiet_no_set, (only_tmp_quiet tmp), Hall.
  - exists e. rewrite replay_app, replay_cons. apply replay_log_mono.
    simpl. apply elem_of_app. right. by left.
  - apply replay_keeps, (only_tmp_keeps tmp); [|done].
    intros Heq. apply Hne. by symmetry.
  - intros Hu. rewrite replay_app, replay_cons.
    assert (fs (apply_event (replay s evs) (EvLog ERROR (MsgFailed (Key obj) e)))
            = fs (replay s evs)) as Hfs by done.
    subst cleanup. rewrite Hu. case_bool_decide as Hex.
    + change (delete tmp (fs (apply_event (replay s evs)
                (EvLog ERROR (MsgFailed (Key obj) e)))) !! tmp = None).
      apply lookup_delete_eq.
    + change (fs (apply_event (replay s evs)
                (EvLog ERROR (MsgFailed (Key obj) e))) !! tmp = None).
      rewrite Hfs. by apply eq_None_not_Some.
Qed.

(** C5. The worker at the key [../x]: the mapper is called before the
    [try] block, so its [ValueError] leaves [worker_download]; no effect is
    performed, nothing is logged and no [False] is returned. At a key whose
    download is refused the handler runs: the error is logged and [False]
    is returned. *)
Theorem unsafe_key_escapes_the_handler :
  ∀ o : Oracle,
    worker_download demo_dumps demo_cfg o (MkObj "../x" (Some "v1")) empty_store
      = (inl (ValueError "Unsafe key path: ../x"), []) ∧
    log (final (worker_download demo_dumps demo_cfg o (MkObj "../x" (Some "v1")))
           empty_store) = [] ∧
    let refused :=
      MkOracle true (DlRefused ClientError) true true SaveOk DelOk true in
    result (worker_download demo_dumps demo_cfg refused (MkObj "x" (Some "v1")))
      empty_store = inr false ∧
    log (final (worker_download demo_dumps demo_cfg refused (MkObj "x" (Some "v1")))
           empty_store)
      = [(INFO, MsgDownloading "x" (MkPath "/" ["data"; "x"]));
         (ERROR, MsgFailed "x" ClientError)].
Proof. intros o. repeat split. Qed.

(** C3. A pool that fetches [a.txt.part] and then [a.txt]: the temporary
    path of the second item is the target path of the first. Both calls
    return [True]. After the first call (22 effects) the target path of
    [a.txt.part] holds its object; the download of [a.txt] then empties it,
    fills it with the first chunk of [a.txt] and with all of [a.txt]; the
    rename takes the file away. At the end the state records [a.txt.part]
    and no file is left at its target path. *)
Theorem temporary_path_collides_with_a_target :
  let pool := run_pool demo_dumps demo_cfg two_downloads 0 [obj_part; obj_a] in
  let at_step n := fs (replay empty_store (take n (events pool empty_store)))
                     !! target_part in
  s3_key_to_local_path "a.txt.part" "" demo_root = inr target_part ∧
  s3_key_to_local_path "a.txt" "" demo_root = inr target_a ∧
  tmp_path_of target_a = inr target_part ∧
  result pool empty_store = inr [inr true; inr true] ∧
  at_step 22 = Some "PART-FILE" ∧
  at_step 25 = Some "" ∧
  at_step 26 = Some "AAAA" ∧
  at_step 27 = Some "AAAABBBB" ∧
  at_step 29 = None ∧
  data (final pool empty_store) !! "a.txt.part" = Some "v1" ∧
  fs (final pool empty_store) !! target_part = None ∧
  fs (final pool empty_store) !! target_a = Some "AAAABBBB".
Proof.
  intros pool at_step. subst at_step. cbv beta.
  repeat split; vm_compute; reflexivity.
Qed.

(** ** The polling loop *)

(** [stop_event.wait] returns at the instant of the signal. *)
Lemma stop_event_wait_wakes c timeout s :
  now s ≤ c → c ≤ now s + timeout →
  now (final (stop_event_wait (Some c) timeout) s) = c.
Proof.
  intros H1 H2. unfold final, events, stop_event_wait, is_set. run_monad. simpl.
  case_bool_decide; lia.
Qed.

(** C9. The polling loop with an interval of 30 seconds and a stop signal
    at second 1. When the listing of the first turn raises a [ClientError]
    the loop sleeps through the backoff and is left at second 30; when the
    listing succeeds the wait is woken and the loop is left at second 1. *)
Theorem backoff_sleep_ignores_the_stop_event :
  let late := main_loop demo_dumps demo_cfg (Some 1) [failing_turn; idle_turn] in
  let prompt := main_loop demo_dumps demo_cfg (Some 1) [idle_turn; idle_turn] in
  result late empty_store = inr true ∧
  events late empty_store
    = [EvTime 0; EvLog ERROR MsgS3Error; EvTime 30; EvTime 0; EvLog INFO MsgExited] ∧
  now (final late empty_store) = 30 ∧
  result prompt empty_store = inr true ∧
  now (final prompt empty_store) = 1.
Proof. repeat split. Qed.

(** ** The poll cycle *)

Lemma prune_run keep s :
  ∃ tail, StateStore.prune keep s = (inr (), EvPrune keep :: tail) ∧
          (tail = [] ∨ ∃ n, tail = [EvLog DEBUG (MsgPruned n)]).
Proof.
  unfold StateStore.prune. run_monad. simpl.
  case_bool_decide; simpl; eauto.
Qed.

Lemma prune_final keep s :
  data (final (StateStore.prune keep) s) = pruned keep (data s) ∧
  fs (final (StateStore.prune keep) s) = fs s.
Proof.
  unfold final, events. destruct (prune_run keep s) as (tail & -> & [->| [n ->]]);
    done.
Qed.

Lemma after_prune_data objects s :
  data (after_prune objects s) = pruned (seen_keys objects) (data s) ∧
  fs (after_prune objects s) = fs s.
Proof.
  unfold after_prune. simpl. destruct (prune_final (seen_keys objects) s) as [-> ->].
  done.
Qed.

Lemma run_pool_result jd cfg os i work s :
  ∃ rs, (run_pool jd cfg os i work s).1 = inr rs.
Proof.
  revert i s. induction work as [|obj rest IH]; intros i s; simpl; [by eexists|].
  run_monad.
  destruct (worker_download jd cfg (os i) obj s) as [r evs].
  destruct (IH (S i) (replay s evs)) as [rs Hrs]. revert Hrs. run_monad.
  destruct (run_pool jd cfg os (S i) rest (replay s evs)) as [[e|rs'] evs'];
    simpl; intros; simplify_eq. by eexists.
Qed.

Lemma run_pool_cons jd cfg os i obj rest s :
  (run_pool jd cfg os i (obj :: rest) s).2 =
  (worker_download jd cfg (os i) obj s).2 ++
  (run_pool jd cfg os (S i) rest
     (replay s (worker_download jd cfg (os i) obj s).2)).2.
Proof.
  simpl. run_monad.
  destruct (worker_download jd cfg (os i) obj s) as [r evs]. simpl.
  destruct (run_pool_result jd cfg os (S i) rest (replay s evs)) as [rs Hrs].
  revert Hrs. run_monad.
  destruct (run_pool jd cfg os (S i) rest (replay s evs)) as [[e|rs'] evs'];
    simpl; intros; simplify_eq. by rewrite app_nil_r.
Qed.

Lemma poll_run_raw jd cfg objects os s :
  let pe := (StateStore.prune (seen_keys objects) s).2 in
  let work := to_download (data (replay s pe)) objects in
  poll jd cfg (inr objects) os s =
  (inr (),
   pe ++ if bool_decide (work ≠ []) then
           EvLog INFO (MsgFound (length work))
             :: (run_pool jd cfg os 0 work
                   (replay (replay s pe) [EvLog INFO (MsgFound (length work))])).2
         else [EvLog DEBUG MsgNoNew]).
Proof.
  intros pe work. subst pe work. unfold poll.
  destruct (prune_run (seen_keys objects) s) as (tail & Hp & _).
  run_monad. simpl. rewrite Hp. simpl.
  case_bool_decide; simpl; [|done].
  match goal with |- context [run_pool jd cfg os 0 ?w ?s'] =>
    destruct (run_pool_result jd cfg os 0 w s') as [rs Hrs];
    destruct (run_pool jd cfg os 0 w s') as [[e|rs'] evs'] end;
    simpl in *; simplify_eq. by rewrite app_nil_r.
Qed.

Lemma poll_run jd cfg objects os s :
  let pe := (StateStore.prune (seen_keys objects) s).2 in
  let work := work_set objects (data s) in
  poll jd cfg (inr objects) os s =
  (inr (),
   pe ++ if bool_decide (work ≠ []) then
           EvLog INFO (MsgFound (length work))
             :: (run_pool jd cfg os 0 work (after_prune objects s)).2
         else [EvLog DEBUG MsgNoNew]).
Proof.
  intros pe work. rewrite poll_run_raw. fold pe.
  unfold after_prune, final, events. fold pe.
  assert (data (replay s pe) = pruned (seen_keys objects) (data s)) as Hd
    by apply prune_final.
  subst work. unfold work_set. by rewrite <- Hd.
Qed.

(** What a call of the worker does to the in-memory mapping. *)
Lemma worker_download_data jd cfg o obj s :
  let w := worker_download jd cfg o obj s in
  (data (replay s w.2) = data s ∧ w.1 ≠ inr true)
  ∨ (has_entry (data s) (Key obj) (etag_of obj) = false ∧
     data (replay s w.2) = <[Key obj := etag_of obj]> (data s)).
Proof.
  intros w. subst w.
  destruct (worker_download_run jd cfg o obj s)
    as [[Hq Hr]|(target & tmp & chunks & B & _ & _ & _ & Hhas & -> & HB & _)].
  - left. split; [|done]. apply replay_data. by apply quiet_no_set.
  - right. split; [done|].
    rewrite replay_app, replay_cons, replay_data by done.
    change (data (apply_event ?x (EvSet ?k ?v))) with (<[k := v]> (data x)).
    rewrite replay_data; [done|]. apply quiet_no_set, fetch_events_quiet.
Qed.

Lemma has_entry_insert d k v k' v' :
  has_entry d k' v' = true → (k = k' → v = v') →
  has_entry (<[k := v]> d) k' v' = true.
Proof.
  unfold has_entry. intros H Hc. apply bool_decide_eq_true in H.
  apply bool_decide_eq_true. destruct (decide (k = k')) as [->|Hne].
  - rewrite lookup_insert_eq. by rewrite Hc.
  - by rewrite lookup_insert_ne.
Qed.

Lemma pool_records_all jd cfg objects os i work s :
  consistent objects →
  (∀ obj, obj ∈ work → obj ∈ objects) →
  pool_succeeds jd cfg os i work s →
  ∀ obj, obj ∈ objects →
    has_entry (data s) (Key obj) (etag_of obj) = true ∨ obj ∈ work →
    has_entry (data (replay s (run_pool jd cfg os i work s).2))
      (Key obj) (etag_of obj) = true.
Proof.
  intros Hcons. revert i s.
  induction work as [|w rest IH]; intros i s Hsub Hok obj Hobj Hcase.
  - destruct Hcase as [?|Hin]; [done|]. by apply elem_of_nil in Hin.
  - rewrite run_pool_cons, replay_app. destruct Hok as [Hw Hrest].
    apply IH; [intros ? ?; apply Hsub; by right|done|done|].
    assert (Hwin : w ∈ objects) by (apply Hsub; by left).
    destruct (worker_download_data jd cfg (os i) w s) as [[Hd Hr]|[Hh Hd]];
      rewrite Hd.
    + destruct Hw as [Hw|Hw]; [|done].
      destruct Hcase as [?|Hin]; [by left|].
      apply elem_of_cons in Hin as [->|Hin]; [by left|by right].
    + destruct Hcase as [Hhas|Hin].
      * left. apply has_entry_insert; [done|]. intros Hk. by apply Hcons.
      * apply elem_of_cons in Hin as [->|Hin]; [|by right].
        left. unfold has_entry. apply bool_decide_eq_true, lookup_insert_eq.
Qed.

Lemma has_entry_pruned keep d k v :
  k ∈ keep → has_entry (pruned keep d) k v = has_entry d k v.
Proof.
  intros Hk. unfold has_entry, pruned. apply bool_decide_ext.
  rewrite map_lookup_filter_Some. simpl. tauto.
Qed.

Lemma elem_of_seen_keys objects k :
  k ∈ seen_keys objects ↔ ∃ obj, obj ∈ objects ∧ Key obj = k.
Proof.
  unfold seen_keys. rewrite elem_of_list_to_set, list_elem_of_fmap.
  split; intros (obj & ? & ?); exists obj; done.
Qed.

Lemma elem_of_to_download d objects obj :
  obj ∈ to_download d objects ↔
  obj ∈ objects ∧ has_entry d (Key obj) (etag_of obj) = false.
Proof. unfold to_download. rewrite list_elem_of_filter. tauto. Qed.

Lemma to_download_nil d objects :
  (∀ obj, obj ∈ objects → has_entry d (Key obj) (etag_of obj) = true) →
  to_download d objects = [].
Proof.
  intros H. destruct (to_download d objects) as [|x l] eqn:E; [done|].
  assert (x ∈ to_download d objects) as Hx by (rewrite E; by left).
  apply elem_of_to_download in Hx as [Hx Hf]. rewrite H in Hf; done.
Qed.

(** The in-memory mapping at the end of a cycle. *)
Lemma poll_final_data jd cfg objects os s :
  data (final (poll jd cfg (inr objects) os) s) =
  data (replay (after_prune objects s)
          (run_pool jd cfg os 0 (work_set objects (data s))
             (after_prune objects s)).2).
Proof.
  unfold final, events. rewrite poll_run. simpl.
  destruct (after_prune_data objects s) as [Hd _].
  case_bool_decide as Hw.
  - rewrite replay_app. unfold after_prune, final, events.
    assert (to_download (data (replay s (StateStore.prune (seen_keys objects) s).2))
              objects = work_set objects (data s)) as ->; [|done].
    unfold work_set. f_equal. apply prune_final.
  - rewrite Hw. change (run_pool jd cfg os 0 [] ?x).2 with (@nil Event).
    change (replay ?x []) with x. rewrite Hd, replay_app.
    change (data (replay ?x [EvLog DEBUG MsgNoNew])) with (data x).
    apply prune_final.
Qed.

(** C6, as amended. When no identifier is listed with two fingerprints and
    all fetches of a cycle on the listing succeed, a second cycle on the
    same listing has an empty work set. *)
Theorem second_cycle_has_no_work jd cfg objects os s :
  consistent objects →
  all_fetched jd cfg objects os s →
  work_set objects (data (final (poll jd cfg (inr objects) os) s)) = [].
Proof.
  intros Hcons Hok. unfold work_set at 1. apply to_download_nil.
  intros obj Hobj. rewrite has_entry_pruned
    by (apply elem_of_seen_keys; eauto).
  rewrite poll_final_data.
  apply (pool_records_all jd cfg objects); try done.
  - intros w Hw. by apply elem_of_to_download in Hw as [? _].
  - destruct (after_prune_data objects s) as [Hd _]. rewrite Hd.
    destruct (has_entry (pruned (seen_keys objects) (data s)) (Key obj)
                (etag_of obj)) eqn:E; [by left|right].
    apply elem_of_to_download. done.
Qed.

(** C6, witness: a listing of two objects, an empty state, every fetch
    succeeds. *)
Lemma second_cycle_has_no_work_witness :
  consistent demo_listing ∧
  all_fetched demo_dumps demo_cfg demo_listing fetch_ok empty_store ∧
  work_set demo_listing
    (data (final (poll demo_dumps demo_cfg (inr demo_listing) fetch_ok)
             empty_store)) = [].
Proof.
  assert (Hc : consistent demo_listing)
    by (apply (bool_decide_unpack _); vm_compute; exact I).
  assert (Hf : all_fetched demo_dumps demo_cfg demo_listing fetch_ok empty_store)
    by (apply (bool_decide_unpack _); vm_compute; exact I).
  split; [exact Hc|]. split; [exact Hf|].
  exact (second_cycle_has_no_work demo_dumps demo_cfg demo_listing fetch_ok
           empty_store Hc Hf).
Defined.

(** C6, counterexample. The listing holds [a] with the fingerprints [v1]
    and [v2], the state is empty and every fetch succeeds: the second cycle
    has work. *)
Lemma twice_listed_is_not_idempotent :
  ¬ idempotent_cycle demo_dumps demo_cfg twice_listed fetch_ok empty_store.
Proof.
  unfold idempotent_cycle. intros H.
  assert (all_fetched demo_dumps demo_cfg twice_listed fetch_ok empty_store) as Hok.
  { unfold all_fetched. change (work_set twice_listed (data empty_store))
      with twice_listed.
    simpl. split; [right; reflexivity|]. split; [right; reflexivity|exact I]. }
  specialize (H Hok). vm_compute in H. discriminate H.
Qed.

(** C8, counterexample. The listing holds [a] with [v1] and then [v2], the
    state records [a] at [v2] and every fetch succeeds: the cycle records
    [v1], the fingerprint of the first occurrence. *)
Lemma first_occurrence_can_win :
  ¬ last_occurrence_wins demo_dumps demo_cfg twice_listed fetch_ok store_a_v2.
Proof.
  unfold last_occurrence_wins. intros H.
  assert (all_fetched demo_dumps demo_cfg twice_listed fetch_ok store_a_v2) as Hok.
  { unfold all_fetched. change (work_set twice_listed (data store_a_v2))
      with [MkObj "a" (Some "v1")].
    simpl. split; [right; reflexivity|exact I]. }
  specialize (H Hok [MkObj "a" (Some "v1")] (MkObj "a" (Some "v2")) []
                eq_refl).
  assert (∀ o : S3Object, o ∈ @nil S3Object → Key o ≠ Key (MkObj "a" (Some "v2")))
    as Hlast by (intros o Ho; by apply elem_of_nil in Ho).
  specialize (H Hlast). vm_compute in H. discriminate H.
Qed.

(** C4, counterexample. The listing is empty and the state records [a], in
    memory and on disk: the cycle prunes the entry in memory and leaves the
    document on disk as it was. *)
Lemma pruned_mapping_is_not_persisted :
  ¬ prune_then_persist demo_dumps demo_cfg [] fetch_ok store_a_v2.
Proof.
  unfold prune_then_persist. intros [_ H]. vm_compute in H. discriminate H.
Qed.

Lemma save_after_set_no_save evs :
  Forall (fun e => ¬ is_save_event e) evs → save_after_set evs.
Proof.
  intros Hq l1 l2 e -> He. exfalso. rewrite Forall_forall in Hq.
  apply (Hq e); [|done]. apply elem_of_app. right. by left.
Qed.

Lemma save_after_set_quiet evs : Forall quiet evs → save_after_set evs.
Proof.
  intros Hq. apply save_after_set_no_save.
  eapply Forall_impl; [exact Hq|]. by intros e [_ ?].
Qed.

Lemma app_eq_split {A} (a b l1 l2 : list A) e :
  a ++ b = l1 ++ e :: l2 →
  (∃ m, a = l1 ++ e :: m ∧ l2 = m ++ b) ∨ (∃ m, l1 = a ++ m ∧ b = m ++ e :: l2).
Proof.
  revert l1. induction a as [|x a IH]; intros l1 Heq; simpl in *.
  - right. by exists l1.
  - destruct l1 as [|y l1]; simplify_eq/=.
    + left. by exists a.
    + destruct (IH _ H0) as [(m & -> & ->)|(m & -> & ->)].
      * left. by exists m.
      * right. by exists m.
Qed.

Lemma save_after_set_app a b :
  save_after_set a → save_after_set b → save_after_set (a ++ b).
Proof.
  intros Ha Hb l1 l2 e Heq He.
  apply app_eq_split in Heq as [(m & -> & ->)|(m & -> & ->)].
  - by eapply Ha.
  - destruct (Hb m l2 e eq_refl He) as (k & v & Hin).
    exists k, v. apply elem_of_app. by right.
Qed.

Lemma worker_save_after_set jd cfg o obj s :
  save_after_set (worker_download jd cfg o obj s).2.
Proof.
  destruct (worker_download_run jd cfg o obj s)
    as [[Hq _]|(target & tmp & chunks & B & _ & _ & _ & _ & -> & _ & _)].
  - by apply save_after_set_quiet.
  - intros l1 l2 e Heq He. exists (Key obj), (etag_of obj).
    eapply split_after; [exact Heq| |].
    + intros Hin. pose proof (fetch_events_quiet (Key obj) target tmp chunks) as HF.
      rewrite Forall_forall in HF. by destruct (HF e Hin).
    + by intros ->.
Qed.

Lemma worker_no_prune jd cfg o obj s :
  Forall (fun e => ¬ is_prune e) (worker_download jd cfg o obj s).2.
Proof.
  destruct (worker_download_run jd cfg o obj s)
    as [[Hq _]|(target & tmp & chunks & B & _ & _ & _ & _ & -> & HB & _)].
  - eapply Forall_impl; [exact Hq|]. intros e [Ht _] Hp. destruct e; simpl in *; tauto.
  - apply Forall_app. split; [|apply Forall_cons; split; [simpl; tauto|]].
    + eapply Forall_impl; [apply fetch_events_quiet|].
      intros e [Ht _] Hp. destruct e; simpl in *; tauto.
    + eapply Forall_impl; [exact HB|]. intros e Ht Hp. unfold no_set in Ht. destruct e; simpl in *; tauto.
Qed.

Lemma pool_save_after_set jd cfg os i work s :
  save_after_set (run_pool jd cfg os i work s).2 ∧
  Forall (fun e => ¬ is_prune e) (run_pool jd cfg os i work s).2.
Proof.
  revert i s. induction work as [|obj rest IH]; intros i s.
  - split; [by apply save_after_set_quiet|done].
  - rewrite run_pool_cons. destruct (IH (S i)
      (replay s (worker_download jd cfg (os i) obj s).2)) as [H1 H2].
    split.
    + apply save_after_set_app; [apply worker_save_after_set|done].
    + apply Forall_app. split; [apply worker_no_prune|done].
Qed.

Lemma pool_dom jd cfg os i work s k :
  is_Some (data (replay s (run_pool jd cfg os i work s).2) !! k) →
  is_Some (data s !! k) ∨ ∃ obj, obj ∈ work ∧ Key obj = k.
Proof.
  revert i s. induction work as [|obj rest IH]; intros i s; [by left|].
  rewrite run_pool_cons, replay_app. intros H.
  apply IH in H as [H|(o & Ho & Hk)]; [|right; exists o; split; [by right|done]].
  destruct (worker_download_data jd cfg (os i) obj s) as [[Hd _]|[_ Hd]];
    rewrite Hd in H; [by left|].
  destruct (decide (Key obj = k)) as [Hk|Hk].
  - right. exists obj. split; [by left|done].
  - left. by rewrite lookup_insert_ne in H.
Qed.

(** C4, as amended. In every cycle the prune with the listed identifiers is
    the first effect, before any fetch, and the only prune; every file
    operation of [save] in the cycle comes after a set of a worker (the
    controller does not persist); at the end the in-memory mapping has
    entries for listed identifiers only; and a cycle with an empty work set
    leaves the files as they were, with the pruned mapping in memory. *)
Theorem cycle_prunes_first_and_leaves_persisting_to_workers
    jd cfg objects os s :
  let run := poll jd cfg (inr objects) os in
  let seen := seen_keys objects in
  (∃ tail, events run s = EvPrune seen :: tail ∧
           Forall (fun e => ¬ is_prune e) tail) ∧
  save_after_set (events run s) ∧
  dom (data (final run s)) ⊆ seen ∧
  (work_set objects (data s) = [] →
     fs (final run s) = fs s ∧ data (final run s) = pruned seen (data s)).
Proof.
  intros run seen. subst run seen.
  destruct (prune_run (seen_keys objects) s) as (ptail & Hp & Hptail).
  destruct (pool_save_after_set jd cfg os 0 (work_set objects (data s))
              (after_prune objects s)) as [Hsave Hnp].
  assert (Hpq : Forall quiet ptail).
  { destruct Hptail as [->|[n ->]]; [done|]. apply Forall_cons. split; [|done].
    split; simpl; tauto. }
  assert (Hev : events (poll jd cfg (inr objects) os) s =
    (EvPrune (seen_keys objects) :: ptail) ++
    (if bool_decide (work_set objects (data s) ≠ []) then
       EvLog INFO (MsgFound (length (work_set objects (data s))))
         :: (run_pool jd cfg os 0 (work_set objects (data s))
               (after_prune objects s)).2
     else [EvLog DEBUG MsgNoNew])).
  { unfold events. by rewrite poll_run, Hp. }
  split; [|split; [|split]].
  - rewrite Hev. simpl. eexists. split; [done|].
    apply Forall_app. split.
    + eapply Forall_impl; [exact Hpq|].
      intros e [Ht _] He. destruct e; simpl in *; tauto.
    + case_bool_decide; apply Forall_cons; (split; [simpl; tauto|done]).
  - rewrite Hev. apply save_after_set_app.
    + apply save_after_set_no_save. apply Forall_cons. split; [simpl; tauto|].
      eapply Forall_impl; [exact Hpq|]. by intros e [_ ?].
    + case_bool_decide.
      * change (?x :: ?l) with ([x] ++ l). apply save_after_set_app; [|done].
        apply save_after_set_no_save. apply Forall_cons. split; [simpl; tauto|done].
      * apply save_after_set_no_save. apply Forall_cons. split; [simpl; tauto|done].
  - intros k Hk. apply elem_of_dom in Hk. rewrite poll_final_data in Hk.
    apply pool_dom in Hk as [Hk|(obj & Hobj & <-)].
    + destruct (after_prune_data objects s) as [Hd _]. rewrite Hd in Hk.
      destruct Hk as [v Hv]. unfold pruned in Hv.
      apply map_lookup_filter_Some in Hv as [_ Hv]. done.
    + apply elem_of_seen_keys. exists obj. split; [|done].
      by apply elem_of_to_download in Hobj as [? _].
  - intros Hw. split.
    + unfold final. rewrite Hev, Hw. simpl.
      destruct Hptail as [->|[n ->]]; reflexivity.
    + rewrite poll_final_data, Hw. simpl. apply after_prune_data.
Qed.

Lemma to_download_pruned keep d objects :
  (∀ obj, obj ∈ objects → Key obj ∈ keep) →
  to_download (pruned keep d) objects = to_download d objects.
Proof.
  unfold to_download. induction objects as [|obj rest IH]; intros Hk; [done|].
  rewrite !filter_cons, IH by (intros ? ?; apply Hk; by right).
  rewrite has_entry_pruned by (apply Hk; by left). done.
Qed.

Lemma work_set_eq objects d : work_set objects d = to_download d objects.
Proof.
  unfold work_set. apply to_download_pruned.
  intros obj Hobj. apply elem_of_seen_keys. eauto.
Qed.

(** C8, as amended. On every listing the cycle returns normally; the live
    set holds exactly the identifiers of the listing; the work set is the
    listing filtered, in listing order, by the absence of an entry with
    exactly the record's fingerprint, every occurrence being judged on its
    own (no tie-break between duplicates); and the pool runs on this work
    set. *)
Theorem planner_judges_every_record_on_its_own jd cfg objects os s :
  let work := work_set objects (data s) in
  result (poll jd cfg (inr objects) os) s = inr () ∧
  (∀ k, k ∈ seen_keys objects ↔ ∃ obj, obj ∈ objects ∧ Key obj = k) ∧
  work = filter (fun obj => has_entry (data s) (Key obj) (etag_of obj) = false)
           objects ∧
  (∀ obj, obj ∈ work ↔
          obj ∈ objects ∧ has_entry (data s) (Key obj) (etag_of obj) = false) ∧
  events (poll jd cfg (inr objects) os) s =
    (StateStore.prune (seen_keys objects) s).2 ++
    (if bool_decide (work ≠ []) then
       EvLog INFO (MsgFound (length work))
         :: (run_pool jd cfg os 0 work (after_prune objects s)).2
     else [EvLog DEBUG MsgNoNew]).
Proof.
  intros work. subst work.
  split; [unfold result; by rewrite poll_run|].
  split; [apply elem_of_seen_keys|].
  split; [apply work_set_eq|].
  split; [intros obj; rewrite work_set_eq; apply elem_of_to_download|].
  unfold events. by rewrite poll_run.
Qed.

(* ===================================================================== *)
(** * Further properties of the code *)
(* ===================================================================== *)

(** ** More on the path mapper *)

Lemma startswith_append p r : Str.startswith (p +:+ r) p = true.
Proof.
  unfold Str.startswith. induction p as [|c p IH]; [apply prefix_empty|].
  rewrite append_cons. simpl. by destruct (ascii_dec c c).
Qed.

Lemma drop_append p r : Str.drop (Str.len p) (p +:+ r) = r.
Proof. induction p as [|c p IH]; [done|]. by rewrite append_cons. Qed.

Lemma replace_char_idem a b s :
  a ≠ b → Str.replace_char a b (Str.replace_char a b s) = Str.replace_char a b s.
Proof.
  intros Hab. induction s as [|c s IH]; [done|]. simpl. rewrite IH. f_equal.
  destruct (Ascii.eqb c a) eqn:E; [|by rewrite E].
  destruct (Ascii.eqb b a) eqn:E'; [|done].
  apply Ascii.eqb_eq in E'. by subst.
Qed.

(** X2. Stripping the prefix: a key under a non-empty prefix is mapped like the
    rest of the key, less one leading slash, under no prefix. *)
Theorem mapper_strips_the_prefix pfx r dest p :
  pfx ≠ "" →
  relative_key (pfx +:+ r) pfx = relative_key (strip_prefix_slash r) "" ∧
  (s3_key_to_local_path (pfx +:+ r) pfx dest = inr p ↔
   s3_key_to_local_path (strip_prefix_slash r) "" dest = inr p).
Proof.
  intros Hp.
  assert (Hrel : relative_key (pfx +:+ r) pfx
                 = relative_key (strip_prefix_slash r) "").
  { unfold relative_key, strip_prefix_slash.
    rewrite startswith_append, drop_append.
    rewrite (bool_decide_eq_false_2 (pfx = "")) by done.
    rewrite (bool_decide_eq_true_2 ("" = "")) by done. done. }
  split; [done|]. unfold s3_key_to_local_path. rewrite Hrel.
  destruct (Str.startswith _ ".."); [|done]. split; intros; discriminate.
Qed.

(** X3. Backslashes and slashes are not told apart: under no prefix a key and
    the key with its backslashes turned into slashes have the same path. *)
Theorem mapper_conflates_backslashes key dest p :
  s3_key_to_local_path key "" dest = inr p ↔
  s3_key_to_local_path (Str.replace_char "\" "/" key) "" dest = inr p.
Proof.
  assert (Hrel : relative_key key ""
                 = relative_key (Str.replace_char "\" "/" key) "").
  { unfold relative_key. simpl. by rewrite replace_char_idem. }
  unfold s3_key_to_local_path. rewrite Hrel.
  destruct (Str.startswith _ ".."); [|done]. split; intros; discriminate.
Qed.

(** ** Fingerprints: the unquoting of the ETag *)

Lemma rstrip_snoc c s : Str.rstrip c (s +:+ String c "") = Str.rstrip c s.
Proof.
  induction s as [|a s IH].
  - simpl. by rewrite Ascii.eqb_refl.
  - rewrite append_cons. simpl. by rewrite IH.
Qed.

Lemma lstrip_snoc c s :
  Str.lstrip c (s +:+ String c "") =
  if bool_decide (Str.lstrip c s = "") then ""
  else Str.lstrip c s +:+ String c "".
Proof.
  induction s as [|a s IH].
  - simpl. by rewrite Ascii.eqb_refl.
  - rewrite append_cons. simpl. destruct (Ascii.eqb a c); [done|].
    by rewrite bool_decide_eq_false_2.
Qed.

Lemma lstrip_head c s :
  Str.lstrip c s = "" ∨ ∃ a t, Str.lstrip c s = String a t ∧ Ascii.eqb a c = false.
Proof.
  induction s as [|a s IH]; [by left|]. simpl.
  destruct (Ascii.eqb a c) eqn:E; [done|]. right. by exists a, s.
Qed.

Lemma rstrip_idem c t : Str.rstrip c (Str.rstrip c t) = Str.rstrip c t.
Proof.
  induction t as [|a t IH]; [done|]. simpl.
  destruct (Str.rstrip c t) as [|b r] eqn:E.
  - destruct (Ascii.eqb a c) eqn:Ea; [done|]. simpl. by rewrite Ea.
  - simpl in *. by rewrite IH.
Qed.

Lemma rstrip_head c a t :
  Ascii.eqb a c = false → ∃ r, Str.rstrip c (String a t) = String a r.
Proof.
  intros Ha. simpl. destruct (Str.rstrip c t); [rewrite Ha|]; by eexists.
Qed.

Lemma strip_idem c s : Str.strip c (Str.strip c s) = Str.strip c s.
Proof.
  unfold Str.strip. destruct (lstrip_head c s) as [->|(a & t & -> & Ha)];
    [done|].
  destruct (rstrip_head c a t Ha) as [r Hr]. rewrite Hr.
  change (Str.lstrip c (String a r))
    with (if Ascii.eqb a c then Str.lstrip c r else String a r).
  rewrite Ha, <- Hr. apply rstrip_idem.
Qed.

Lemma strip_quoted c e :
  Str.strip c (String c (e +:+ String c "")) = Str.strip c e.
Proof.
  unfold Str.strip.
  change (Str.lstrip c (String c (e +:+ String c "")))
    with (if Ascii.eqb c c then Str.lstrip c (e +:+ String c "")
          else String c (e +:+ String c "")).
  rewrite Ascii.eqb_refl, lstrip_snoc.
  case_bool_decide as E; [by rewrite E|]. apply rstrip_snoc.
Qed.

(** X4. The fingerprint of a record is its ETag without the double quotes around
    it: a quoted and an unquoted ETag are the same fingerprint, a record
    without ETag has the empty fingerprint, and unquoting a fingerprint
    again changes nothing. *)
Theorem etag_of_ignores_surrounding_quotes key e :
  etag_of (MkObj key (Some (quoted e))) = etag_of (MkObj key (Some e)) ∧
  etag_of (MkObj key None) = "" ∧
  etag_of (MkObj key (Some (etag_of (MkObj key (Some e)))))
    = etag_of (MkObj key (Some e)).
Proof.
  unfold etag_of, quoted, dquote. simpl.
  split; [apply strip_quoted|]. split; [done|]. apply strip_idem.
Qed.

(** ** The temporary path stays under the destination root *)

Lemma append_part_not_dots n : n +:+ ".part" ≠ "..".
Proof.
  intros H. apply (f_equal Str.len) in H. rewrite len_append in H.
  unfold Str.len in H. simpl in H. lia.
Qed.

(** X5. When the target path lies under the destination root and is not the
    root itself, the temporary path lies under the root too: it is in the
    directory of the target, its name is the name of the target followed by
    [.part], and it is not the target. *)
Theorem tmp_path_stays_under_root dest target tmp :
  PathLib.inside dest target →
  target ≠ dest →
  tmp_path_of target = inr tmp →
  PathLib.inside dest tmp ∧
  PathLib.parent tmp = PathLib.parent target ∧
  PathLib.name tmp = PathLib.name target +:+ ".part" ∧
  tmp ≠ target.
Proof.
  intros (Hroot & rest & Hparts & Hdots) Hne Htmp.
  destruct (tmp_path_of_sibling target tmp Htmp)
    as (dir & n & Hdir & Hn & -> & Hparent & Hdiff).
  assert (rest ≠ []) as Hrest.
  { intros ->. rewrite app_nil_r in Hparts. apply Hne.
    destruct target, dest; simpl in *; by subst. }
  destruct rest as [|x rest _] using rev_ind; [done|].
  rewrite Hdir, app_assoc in Hparts. apply app_inj_tail in Hparts as [-> ->].
  split; [|split; [done|split; [|done]]].
  - split; [done|]. exists (rest ++ [x +:+ ".part"]).
    split; [by rewrite <- app_assoc|].
    intros Hin. apply elem_of_app in Hin as [Hin|Hin].
    + apply Hdots. apply elem_of_app. by left.
    + apply list_elem_of_singleton in Hin. symmetry in Hin.
      by apply append_part_not_dots in Hin.
  - unfold PathLib.name. simpl. rewrite Hdir, !last_snoc. done.
Qed.

(** ** [StateStore.__init__] and [StateStore._load] *)

(** A successful [save] leaves the new document in the state file. *)
Lemma save_ok_file jd cfg s :
  fs (final (StateStore.save jd cfg SaveOk) s) !! file_path cfg
  = Some (jd (data s)).
Proof.
  unfold final, events. rewrite save_run. cbv beta iota delta [snd].
  rewrite replay_app.
  pose proof (replay_fs_save_full s (state_tmp cfg) (jd (data s))) as HW.
  set (s1 := replay s _) in *.
  change (fs (replay s1 [EvSaveReplace (state_tmp cfg) (file_path cfg)]))
    with (fs_replace (state_tmp cfg) (file_path cfg) (fs s1)).
  unfold fs_replace. rewrite HW, lookup_insert_eq. apply lookup_insert_eq.
Qed.

(** Where a run of [save] can stop, the state file is as before or holds the
    new document. *)
Lemma save_prefix_file jd cfg o s pre :
  pre `prefix_of` (StateStore.save jd cfg o s).2 →
  fs (replay s pre) !! file_path cfg = fs s !! file_path cfg ∨
  fs (replay s pre) !! file_path cfg = Some (jd (data s)).
Proof.
  intros Hpre. pose proof (save_ok_file jd cfg s) as Hfull.
  unfold final, events in Hfull. rewrite save_run in Hpre, Hfull.
  cbv beta iota delta [snd] in Hfull.
  assert (Hk : ∀ l, l `prefix_of` save_writes (state_tmp cfg) (jd (data s)) →
                    fs (replay s l) !! file_path cfg = fs s !! file_path cfg).
  { intros l Hl. apply replay_keeps. eapply Forall_prefix; [exact Hl|].
    unfold save_writes.
    rewrite <- (take_ge (Str.chars _) (length (Str.chars (jd (data s)))))
      by done.
    apply save_writes_keep. }
  destruct o; cbv beta iota delta [snd] in Hpre.
  - apply prefix_nil_inv in Hpre as ->. by left.
  - left. apply replay_keeps. eapply Forall_prefix; [exact Hpre|].
    apply save_writes_keep.
  - left. by apply Hk.
  - apply prefix_snoc_cases in Hpre as [Hpre| ->]; [left; by apply Hk|by right].
Qed.

(** X7. Save, then load: when [json.loads] reads back what [json.dumps] wrote
    for the mapping in memory, a state store built on the files that a
    successful [save] leaves has this mapping, and logs no warning. *)
Theorem save_then_load_restores_the_mapping jd jl cfg s :
  jl (jd (data s)) = IsMapping (data s) →
  StateStore_init jl cfg true true
    (fs (final (StateStore.save jd cfg SaveOk) s))
  = inr (Ready (data s) false).
Proof.
  intros Hrt. unfold StateStore_init. by rewrite save_ok_file, Hrt.
Qed.

(** X8. A crash in [save] loses no state: when the state file held the document
    of a mapping [d0] and [json.loads] reads back the documents of [d0] and
    of the mapping in memory, then wherever a run of [save] stops, and
    however it fails, a state store built on the files left behind has
    [d0] or the mapping in memory, and logs no warning. *)
Theorem load_after_interrupted_save jd jl cfg o s d0 pre :
  fs s !! file_path cfg = Some (jd d0) →
  jl (jd d0) = IsMapping d0 →
  jl (jd (data s)) = IsMapping (data s) →
  pre `prefix_of` events (StateStore.save jd cfg o) s →
  StateStore_init jl cfg true true (fs (replay s pre)) = inr (Ready d0 false) ∨
  StateStore_init jl cfg true true (fs (replay s pre))
    = inr (Ready (data s) false).
Proof.
  intros Hfile H0 H1 Hpre. unfold StateStore_init.
  destruct (save_prefix_file jd cfg o s pre Hpre) as [-> | ->].
  - left. by rewrite Hfile, H0.
  - right. by rewrite H1.
Qed.

(** ** [StateStore.prune] *)

(** X6. Pruning keeps exactly the entries of the keys to keep and changes no
    file; pruning twice keeps the entries of the keys in both sets. *)
Theorem prune_keeps_exactly_the_given_keys keep keep' s :
  result (StateStore.prune keep) s = inr () ∧
  (∀ k, data (final (StateStore.prune keep) s) !! k
        = if bool_decide (k ∈ keep) then data s !! k else None) ∧
  fs (final (StateStore.prune keep) s) = fs s ∧
  data (final (StateStore.prune keep') (final (StateStore.prune keep) s))
    = pruned (keep ∩ keep') (data s).
Proof.
  destruct (prune_final keep s) as [Hd Hf].
  destruct (prune_final keep' (final (StateStore.prune keep) s)) as [Hd' _].
  split; [|split; [|split; [done|]]].
  - unfold result. by destruct (prune_run keep s) as (tail & -> & _).
  - intros k. rewrite Hd. unfold pruned.
    destruct (data s !! k) as [v|] eqn:Hk.
    + case_bool_decide.
      * by apply map_lookup_filter_Some.
      * apply map_lookup_filter_None. right. intros v' Hv'. simpl. done.
    + assert (filter (λ kv : string * string, kv.1 ∈ keep) (data s) !! k = None)
        as ->; [|by case_bool_decide].
      apply map_lookup_filter_None. by left.
  - rewrite Hd', Hd. unfold pruned. apply map_eq. intros k.
    apply option_eq. intros v.
    rewrite !map_lookup_filter_Some. simpl. rewrite elem_of_intersection.
    tauto.
Qed.

(** ** The files a call of the worker touches *)

Ltac step_solve :=
  repeat first
    [ apply Forall_nil_2
    | apply Forall_cons; split; [by simpl|]
    | apply Forall_app; split
    | apply Forall_fmap, Forall_true; intros ?; by simpl
    | assumption ].

Lemma save_steps jd cfg o key target tmp s :
  Forall (worker_step cfg key target tmp) (StateStore.save jd cfg o s).2.
Proof.
  rewrite save_run. unfold save_writes. destruct o; simpl; step_solve.
Qed.

Lemma delete_steps (b : bool) cfg o key target tmp s :
  Forall (worker_step cfg key target tmp)
    ((if b then
       try_except is_ClientError
         (S3Client.delete_object o key;; logging INFO (MsgDeleted key))
         (fun _ => logging WARNING (MsgDeleteFailed key))
     else mret ()) s).2.
Proof.
  destruct b; [|step_solve].
  unfold S3Client.delete_object. run_monad.
  destruct (delete_outcome o) as [| |e]; simpl; [step_solve..|].
  destruct (is_ClientError e); simpl; step_solve.
Qed.

Lemma worker_try_steps jd cfg o key etag target tmp s :
  Forall (worker_step cfg key target tmp)
    (worker_try jd cfg o key etag target tmp s).2.
Proof.
  unfold worker_try, S3Client.download_to_temp, ensure_dir, StateStore.set.
  pose proof (save_steps jd cfg (save_outcome o) key target tmp) as Hsave.
  pose proof (delete_steps (DELETE_AFTER_DOWNLOAD cfg) cfg o key target tmp)
    as Hdel.
  revert Hsave Hdel.
  generalize (StateStore.save jd cfg (save_outcome o)).
  generalize (if DELETE_AFTER_DOWNLOAD cfg then
       try_except is_ClientError
         (S3Client.delete_object o key;; logging INFO (MsgDeleted key))
         (fun _ => logging WARNING (MsgDeleteFailed key))
     else mret ()).
  intros dl sv Hsave Hdel. run_monad. simpl.
  destruct (mkdir_tmp_ok o); simpl; [|step_solve].
  destruct (download o) as [e|w e|chunks]; simpl; [step_solve..|].
  destruct (mkdir_target_ok o); simpl; [|step_solve].
  destruct (replace_ok o); simpl; [|step_solve].
  match goal with |- context [sv ?s'] =>
    specialize (Hsave s'); destruct (sv s') as [[e|[]] sevs] end; simpl in *;
    [step_solve|].
  match goal with |- context [dl ?s'] =>
    specialize (Hdel s'); destruct (dl s') as [[e|[]] devs] end; simpl in *;
    step_solve.
Qed.

Lemma worker_except_steps cfg o key target tmp e s :
  Forall (worker_step cfg key target tmp) (worker_except o key tmp e s).2.
Proof.
  unfold worker_except. run_monad. simpl.
  case_bool_decide; simpl; [destruct (unlink_ok o); simpl|]; step_solve.
Qed.

(** The effects of a call of the worker: log records only when the call
    skips or the paths cannot be computed, steps on its own paths
    otherwise. *)
Lemma worker_download_steps jd cfg o obj s :
  Forall (fun e => ∃ l m, e = EvLog l m) (worker_download jd cfg o obj s).2 ∨
  ∃ target tmp,
    s3_key_to_local_path (Key obj) (S3_PREFIX cfg) (DESTINATION_DIR cfg)
      = inr target ∧
    tmp_path_of target = inr tmp ∧
    Forall (worker_step cfg (Key obj) target tmp)
      (worker_download jd cfg o obj s).2.
Proof.
  unfold worker_download, StateStore.has.
  destruct (has_entry (data s) (Key obj) (etag_of obj)) eqn:Hhas.
  { left. run_monad. simpl. rewrite Hhas. simpl.
    apply Forall_cons. split; [by eexists _, _|done]. }
  destruct (s3_key_to_local_path (Key obj) _ _) as [e|target] eqn:Hpath.
  { left. run_monad. simpl. rewrite Hhas. simpl. done. }
  destruct (tmp_path_of target) as [e|tmp] eqn:Htmp.
  { left. run_monad. simpl. rewrite Hhas. simpl. rewrite Htmp. simpl. done. }
  right. exists target, tmp. split; [done|]. split; [done|].
  pose proof (worker_try_steps jd cfg o (Key obj) (etag_of obj) target tmp s)
    as Htry.
  run_monad. simpl. rewrite Hhas. simpl. rewrite Htmp. simpl.
  destruct (worker_try jd cfg o (Key obj) (etag_of obj) target tmp s)
    as [[e|b] tevs] eqn:Ht; simpl in *; [|by rewrite ?app_nil_r].
  pose proof (worker_except_steps cfg o (Key obj) target tmp e
                (replay s tevs)) as Hexc.
  destruct (worker_except o (Key obj) tmp e (replay s tevs)) as [r hevs].
  simpl in *. rewrite ?app_nil_r. by apply Forall_app.
Qed.

Lemma worker_step_keeps cfg key target tmp p e :
  p ≠ file_path cfg → p ≠ state_tmp cfg → p ≠ target → p ≠ tmp →
  worker_step cfg key target tmp e → keeps_file p e.
Proof.
  intros ? ? ? ? He. destruct e; simpl in *; try done;
    try (destruct He; split); congruence.
Qed.

Lemma worker_keeps_untouched jd cfg o obj s p :
  ¬ touched cfg obj p →
  Forall (keeps_file p) (worker_download jd cfg o obj s).2.
Proof.
  intros Hp.
  destruct (worker_download_steps jd cfg o obj s)
    as [Hlog|(target & tmp & Hpath & Htmp & Hsteps)].
  - eapply Forall_impl; [exact Hlog|]. by intros e (l & m & ->).
  - eapply Forall_impl; [exact Hsteps|]. intros e He.
    eapply worker_step_keeps; [..|exact He].
    + intros ->. apply Hp. by left.
    + intros ->. apply Hp. right. by left.
    + intros ->. apply Hp. right. right. exists target. split; [done|by left].
    + intros ->. apply Hp. right. right. exists target. split; [done|by right].
Qed.

(** X15. A call of the worker changes no file but the two state files, the
    target path of its object and its temporary path, and no entry of the
    mapping but the one of its key. This holds whatever the environment
    does. *)
Theorem worker_download_touches_its_own_paths_only jd cfg o obj s :
  let s' := final (worker_download jd cfg o obj) s in
  (∀ p, ¬ touched cfg obj p → fs s' !! p = fs s !! p) ∧
  (∀ k, k ≠ Key obj → data s' !! k = data s !! k).
Proof.
  intros s'. subst s'. unfold final, events. split.
  - intros p Hp. apply replay_keeps. by apply worker_keeps_untouched.
  - intros k Hk.
    destruct (worker_download_data jd cfg o obj s) as [[-> _]|[_ ->]];
      [done|]. by rewrite lookup_insert_ne.
Qed.

(** X9. An object whose identifier and fingerprint are recorded is skipped: the
    call returns [False] and the files, the mapping, the log and the clock
    are as before, whatever the environment would do. *)
Theorem worker_download_skips_recorded_objects jd cfg o obj s :
  has_entry (data s) (Key obj) (etag_of obj) = true →
  result (worker_download jd cfg o obj) s = inr false ∧
  events (worker_download jd cfg o obj) s = [EvLog DEBUG (MsgSkip (Key obj))] ∧
  final (worker_download jd cfg o obj) s = s.
Proof.
  intros Hhas.
  assert (worker_download jd cfg o obj s
          = (inr false, [EvLog DEBUG (MsgSkip (Key obj))])) as Hrun.
  { unfold worker_download, StateStore.has. run_monad. simpl.
    by rewrite Hhas. }
  unfold result, final, events. rewrite Hrun. repeat split.
Qed.

(** ** The worker after a successful fetch *)

Lemma delete_block_run cfg o key s :
  delete_block cfg o key s =
  if DELETE_AFTER_DOWNLOAD cfg then
    match delete_outcome o with
    | DelOk => (inr (), [EvDeleteObject key; EvLog INFO (MsgDeleted key)])
    | DelClientError => (inr (), [EvLog WARNING (MsgDeleteFailed key)])
    | DelFails e =>
        if is_ClientError e
        then (inr (), [EvLog WARNING (MsgDeleteFailed key)])
        else (inl e, [])
    end
  else (inr (), []).
Proof.
  unfold delete_block, S3Client.delete_object.
  destruct (DELETE_AFTER_DOWNLOAD cfg); [|done]. run_monad.
  destruct (delete_outcome o) as [| |e]; simpl; try done.
  all: by destruct (is_ClientError e).
Qed.

(** The [try] block when the fetch succeeds: the set follows the fetch, the
    save follows the set and the deletion follows a successful save. *)
Lemma worker_try_after_fetch jd cfg o key etag target tmp chunks s :
  fetch_succeeds o chunks →
  let F := fetch_events key target tmp chunks ++ [EvSet key etag] in
  worker_try jd cfg o key etag target tmp s =
  match StateStore.save jd cfg (save_outcome o) (replay s F) with
  | (inl e, sevs) => (inl e, F ++ sevs)
  | (inr _, sevs) =>
      match delete_block cfg o key (replay (replay s F) sevs) with
      | (inl e, devs) => (inl e, F ++ sevs ++ devs)
      | (inr _, devs) => (inr true, F ++ sevs ++ devs)
      end
  end.
Proof.
  intros (H1 & H2 & H3 & H4) F.
  remember (replay s F) as sF eqn:HsF.
  unfold worker_try, S3Client.download_to_temp, ensure_dir, StateStore.set.
  fold (delete_block cfg o key). rewrite H1, H2, H3, H4.
  generalize (StateStore.save jd cfg (save_outcome o)).
  generalize (delete_block cfg o key). intros dl sv.
  run_monad. unfold emit. simpl.
  match goal with |- context [sv ?x] =>
    assert (sF = x) as ->
      by (subst sF F; unfold fetch_events; by rewrite !replay_app);
    destruct (sv x) as [[e|[]] sevs] end.
  - subst F. unfold fetch_events. f_equal.
    by repeat (rewrite <- ?app_assoc; simpl).
  - match goal with |- context [dl ?x] => destruct (dl x) as [[e|[]] devs] end;
      subst F; unfold fetch_events; f_equal;
      repeat (rewrite <- ?app_assoc; simpl); by rewrite ?app_nil_r.
Qed.

Lemma fetch_dichotomy o : fetch_fails o ∨ ∃ chunks, fetch_succeeds o chunks.
Proof.
  unfold fetch_fails, fetch_succeeds.
  destruct (mkdir_tmp_ok o); [|by left; left].
  destruct (download o) as [e|w e|chunks] eqn:Hd;
    [left; right; left; by eexists|left; right; right; left; by eexists _, _|].
  destruct (mkdir_target_ok o); [|left; by do 3 right; left].
  destruct (replace_ok o); [|left; by do 4 right].
  right. by exists chunks.
Qed.

Lemma part_suffix n m :
  n +:+ ".part" = m → Str.drop (Str.len m - 5) m = ".part".
Proof.
  intros <-. rewrite len_append.
  replace (Str.len n + Str.len ".part" - 5) with (Str.len n)
    by (unfold Str.len; simpl; lia).
  apply drop_append.
Qed.

(** The temporary path of a fetch is neither of the two state files. *)
Lemma tmp_is_no_state_file cfg target tmp :
  tmp_path_of target = inr tmp →
  tmp ≠ file_path cfg ∧ tmp ≠ state_tmp cfg.
Proof.
  intros Htmp.
  destruct (tmp_path_of_sibling target tmp Htmp)
    as (dir & n & _ & _ & -> & _ & _).
  split; intros Heq; apply (f_equal (fun p => last (parts p))) in Heq;
    simpl in Heq; rewrite last_snoc in Heq.
  - change (Some (n +:+ ".part")
            = last ((parts (DESTINATION_DIR cfg)
                       ++ ["." +:+ APP_NAME +:+ "_state"]) ++ ["state.json"]))
      in Heq.
    rewrite last_snoc in Heq. simplify_eq. by apply part_suffix in Heq.
  - change (Some (n +:+ ".part")
            = last ((parts (DESTINATION_DIR cfg)
                       ++ ["." +:+ APP_NAME +:+ "_state"]) ++ ["state.tmp"]))
      in Heq.
    rewrite last_snoc in Heq. simplify_eq. by apply part_suffix in Heq.
Qed.

(** The store after the fetch and the set. *)
Lemma replay_fetch_and_set s key etag target tmp chunks :
  let s1 := replay s (fetch_events key target tmp chunks ++ [EvSet key etag]) in
  fs s1 = <[target := object_bytes chunks]> (delete tmp (fs s)) ∧
  data s1 = <[key := etag]> (data s).
Proof.
  intros s1. subst s1. rewrite replay_app. split.
  - change (fs (replay ?x [EvSet key etag])) with (fs x).
    apply replay_fs_fetch.
  - change (data (replay ?x [EvSet key etag])) with (<[key := etag]> (data x)).
    rewrite replay_data; [done|]. apply quiet_no_set, fetch_events_quiet.
Qed.

Lemma replay_fs_save_ok s cfg text :
  fs (replay s (save_writes (state_tmp cfg) text
                ++ [EvSaveReplace (state_tmp cfg) (file_path cfg)]))
  = <[file_path cfg := text]> (delete (state_tmp cfg) (fs s)).
Proof.
  rewrite replay_app.
  pose proof (replay_fs_save_full s (state_tmp cfg) text) as HW.
  set (s1 := replay s _) in *.
  change (fs (replay s1 [EvSaveReplace (state_tmp cfg) (file_path cfg)]))
    with (fs_replace (state_tmp cfg) (file_path cfg) (fs s1)).
  unfold fs_replace. by rewrite HW, lookup_insert_eq, delete_insert_eq.
Qed.


Lemma worker_except_run o key tmp e s :
  worker_except o key tmp e s =
  (inr false,
   EvLog ERROR (MsgFailed key e) ::
   if bool_decide (is_Some (fs s !! tmp))
   then (if unlink_ok o then [EvUnlink tmp] else []) else []).
Proof.
  unfold worker_except. run_monad. simpl.
  case_bool_decide; simpl; [destruct (unlink_ok o)|]; done.
Qed.

Lemma worker_except_run_tmp o key tmp e s :
  fs s !! tmp = None →
  worker_except o key tmp e s = (inr false, [EvLog ERROR (MsgFailed key e)]).
Proof.
  intros H. rewrite worker_except_run, H.
  by rewrite bool_decide_eq_false_2 by (by intros [? ?]).
Qed.

(** A call that does not skip and can compute its paths runs the [try]
    block and, when that raises, the handler. *)
Lemma worker_download_shape jd cfg o obj s target tmp :
  has_entry (data s) (Key obj) (etag_of obj) = false →
  s3_key_to_local_path (Key obj) (S3_PREFIX cfg) (DESTINATION_DIR cfg)
    = inr target →
  tmp_path_of target = inr tmp →
  worker_download jd cfg o obj s =
  match worker_try jd cfg o (Key obj) (etag_of obj) target tmp s with
  | (inl e, evs) =>
      (inr false, evs ++ (worker_except o (Key obj) tmp e (replay s evs)).2)
  | (inr b, evs) => (inr b, evs)
  end.
Proof.
  intros Hhas Hpath Htmp.
  unfold worker_download, StateStore.has. run_monad. simpl.
  rewrite Hhas, Hpath. simpl. rewrite Htmp. simpl.
  destruct (worker_try _ _ _ _ _ _ _ _) as [[e|b] evs]; simpl;
    [|by rewrite ?app_nil_r].
  rewrite worker_except_run. by rewrite ?app_nil_r.
Qed.

(** The store after them, and after log records and remote deletions. *)
Lemma recorded_store jd cfg obj s target tmp chunks devs :
  tmp_path_of target = inr tmp →
  Forall remote_or_log devs →
  let s' := replay s (recorded_run jd cfg obj s target tmp chunks ++ devs) in
  let d' := <[Key obj := etag_of obj]> (data s) in
  data s' = d' ∧
  fs s' !! file_path cfg = Some (jd d') ∧
  fs s' !! state_tmp cfg = None ∧
  fs s' !! tmp = None ∧
  (target ≠ file_path cfg → target ≠ state_tmp cfg →
   fs s' !! target = Some (object_bytes chunks)).
Proof.
  intros Htmp Hdevs s' d'. subst s'. unfold recorded_run. fold d'.
  set (F := fetch_events (Key obj) target tmp chunks
            ++ [EvSet (Key obj) (etag_of obj)]).
  set (sevs := save_writes (state_tmp cfg) (jd d')
               ++ [EvSaveReplace (state_tmp cfg) (file_path cfg)]).
  destruct (replay_fetch_and_set s (Key obj) (etag_of obj) target tmp chunks)
    as [Hfs1 Hd1]. fold F in Hfs1, Hd1.
  destruct (tmp_is_no_state_file cfg target tmp Htmp) as [Hn1 Hn2].
  destruct (tmp_path_of_sibling target tmp Htmp)
    as (dir & n & _ & _ & _ & _ & Hn3).
  destruct (state_tmp_sibling cfg) as [_ Hn4].
  assert (Hkeep : ∀ p, fs (replay s ((F ++ sevs) ++ devs)) !! p
                       = fs (replay (replay s F) sevs) !! p).
  { intros p. rewrite !replay_app. apply replay_keeps.
    eapply Forall_impl; [exact Hdevs|].
    by intros []. }
  assert (Hfs2 : fs (replay (replay s F) sevs)
                 = <[file_path cfg := jd d']> (delete (state_tmp cfg)
                     (<[target := object_bytes chunks]> (delete tmp (fs s))))).
  { subst sevs. by rewrite replay_fs_save_ok, Hfs1. }
  split; [|split; [|split; [|split]]].
  - rewrite !replay_app.
    rewrite (replay_data _ devs), (replay_data _ sevs); [exact Hd1|..].
    + subst sevs. apply Forall_app. split;
        [|apply Forall_singleton; by intros []].
      apply Forall_cons. split; [by intros []|].
      apply Forall_fmap, Forall_forall. by intros ? _ [].
    + eapply Forall_impl; [exact Hdevs|]. by intros [] ? ?.
  - rewrite Hkeep, Hfs2. apply lookup_insert_eq.
  - rewrite Hkeep, Hfs2. rewrite lookup_insert_ne by done.
    apply lookup_delete_eq.
  - rewrite Hkeep, Hfs2. rewrite lookup_insert_ne by (intros E; by apply Hn1).
    rewrite lookup_delete_ne by (intros E; by apply Hn2).
    rewrite lookup_insert_ne by (intros E; by apply Hn3).
    apply lookup_delete_eq.
  - intros Ht1 Ht2. rewrite Hkeep, Hfs2.
    rewrite lookup_insert_ne by (intros E; by apply Ht1).
    rewrite lookup_delete_ne by (intros E; by apply Ht2).
    apply lookup_insert_eq.
Qed.

(** The worker after the fetch, the recording and a successful [save]. *)
Lemma worker_download_recorded jd cfg o obj s target tmp chunks :
  has_entry (data s) (Key obj) (etag_of obj) = false →
  s3_key_to_local_path (Key obj) (S3_PREFIX cfg) (DESTINATION_DIR cfg)
    = inr target →
  tmp_path_of target = inr tmp →
  fetch_succeeds o chunks →
  save_outcome o = SaveOk →
  let R := recorded_run jd cfg obj s target tmp chunks in
  worker_download jd cfg o obj s =
  match delete_block cfg o (Key obj) (replay s R) with
  | (inl e, devs) =>
      (inr false, R ++ devs ++ [EvLog ERROR (MsgFailed (Key obj) e)])
  | (inr _, devs) => (inr true, R ++ devs)
  end.
Proof.
  intros Hhas Hpath Htmp Hf Hs R.
  pose proof (recorded_store jd cfg obj s target tmp chunks) as Hst.
  fold R in Hst. subst R. unfold recorded_run in *.
  destruct (replay_fetch_and_set s (Key obj) (etag_of obj) target tmp chunks)
    as [_ Hd1].
  set (F := fetch_events (Key obj) target tmp chunks
            ++ [EvSet (Key obj) (etag_of obj)]) in *.
  set (sevs := save_writes (state_tmp cfg) _
               ++ [EvSaveReplace (state_tmp cfg) (file_path cfg)]) in *.
  rewrite (worker_download_shape jd cfg o obj s target tmp) by done.
  rewrite (worker_try_after_fetch jd cfg o _ _ _ _ chunks s Hf).
  fold F. rewrite Hs, save_run, Hd1. fold sevs. cbv beta iota.
  rewrite <- replay_app.
  pose proof (delete_block_run cfg o (Key obj) (replay s (F ++ sevs))) as Hdb.
  destruct (delete_block cfg o (Key obj) (replay s (F ++ sevs)))
    as [[e|[]] devs]; [|by rewrite app_assoc].
  assert (devs = []) as ->.
  { destruct (DELETE_AFTER_DOWNLOAD cfg); [|by simplify_eq].
    destruct (delete_outcome o) as [| |e']; [by simplify_eq..|].
    destruct (is_ClientError e'); by simplify_eq. }
  rewrite !app_nil_r, app_assoc.
  rewrite worker_except_run_tmp;
    [cbv beta iota delta [snd]; by rewrite ?app_nil_r|].
  rewrite <- (app_nil_r (F ++ sevs)). by apply (Hst [] Htmp).
Qed.


(** ** The worker when the state cannot be saved *)

Lemma save_fails_run jd cfg o s :
  o ≠ SaveOk →
  ∃ sevs, StateStore.save jd cfg o s = (inl OSError, sevs) ∧
          Forall (writes_state_tmp cfg) sevs.
Proof.
  intros Ho. rewrite save_run. unfold save_writes.
  destruct o; [..|done]; eexists; (split; [done|]);
    repeat first [ apply Forall_nil_2
                 | apply Forall_cons; split; [done|]
                 | apply Forall_fmap, Forall_true; intros ?; done ].
Qed.




(** ** The deletion of the remote object *)

Ltac local_solve :=
  repeat first
    [ apply Forall_nil_2
    | apply Forall_cons; split; [done|]
    | apply Forall_app; split
    | apply Forall_fmap, Forall_true; intros ?; done
    | assumption ].

Lemma only_tmp_local tmp evs :
  Forall (only_tmp tmp) evs → Forall local_effect evs.
Proof. intros H. eapply Forall_impl; [exact H|]. by intros []. Qed.

Lemma worker_except_local o key tmp e s :
  Forall local_effect (worker_except o key tmp e s).2.
Proof.
  rewrite worker_except_run. cbv beta iota delta [snd].
  case_bool_decide; [destruct (unlink_ok o)|]; local_solve.
Qed.

Lemma worker_download_remote jd cfg o obj s :
  Forall local_effect (worker_download jd cfg o obj s).2 ∨
  ∃ target tmp chunks,
    DELETE_AFTER_DOWNLOAD cfg = true ∧
    s3_key_to_local_path (Key obj) (S3_PREFIX cfg) (DESTINATION_DIR cfg)
      = inr target ∧
    tmp_path_of target = inr tmp ∧
    fetch_succeeds o chunks ∧
    worker_download jd cfg o obj s
      = (inr true, full_run jd cfg obj s target tmp chunks).
Proof.
  destruct (has_entry (data s) (Key obj) (etag_of obj)) eqn:Hhas.
  { left. unfold worker_download, StateStore.has. run_monad. simpl.
    rewrite Hhas. simpl. local_solve. }
  destruct (s3_key_to_local_path (Key obj) _ _) as [e|target] eqn:Hpath.
  { left. unfold worker_download, StateStore.has. run_monad. simpl.
    rewrite Hhas, Hpath. simpl. local_solve. }
  destruct (tmp_path_of target) as [e|tmp] eqn:Htmp.
  { left. unfold worker_download, StateStore.has. run_monad. simpl.
    rewrite Hhas, Hpath. simpl. rewrite Htmp. simpl. local_solve. }
  rewrite (worker_download_shape jd cfg o obj s target tmp) by done.
  destruct (fetch_dichotomy o) as [Hfail|[chunks Hf]].
  { left.
    destruct (worker_try_fails jd cfg o (Key obj) (etag_of obj) target tmp s
                Hfail) as (e & evs & -> & Hevs).
    cbv beta iota delta [snd]. apply Forall_app. split.
    - by apply (only_tmp_local tmp).
    - apply worker_except_local. }
  rewrite (worker_try_after_fetch jd cfg o _ _ _ _ chunks s Hf).
  set (F := fetch_events (Key obj) target tmp chunks
            ++ [EvSet (Key obj) (etag_of obj)]).
  assert (HF : Forall local_effect F).
  { subst F. unfold fetch_events. local_solve. }
  destruct (replay_fetch_and_set s (Key obj) (etag_of obj) target tmp chunks)
    as [_ Hd1]. fold F in Hd1.
  assert (save_outcome o = SaveOk ∨ save_outcome o ≠ SaveOk) as [Hs|Hs]
    by (destruct (save_outcome o); (by left) || (by right)).
  2:{ left.
      destruct (save_fails_run jd cfg (save_outcome o) (replay s F) Hs)
        as (sevs & -> & Hsevs).
      cbv beta iota delta [snd]. apply Forall_app. split.
      - apply Forall_app. split; [done|].
        eapply Forall_impl; [exact Hsevs|]. by intros [].
      - apply worker_except_local. }
  rewrite Hs, save_run, Hd1. cbv beta iota.
  set (sevs := save_writes _ _ ++ [EvSaveReplace _ _]).
  assert (Hsv : Forall local_effect sevs).
  { subst sevs. unfold save_writes. local_solve. }
  rewrite delete_block_run.
  destruct (DELETE_AFTER_DOWNLOAD cfg) eqn:Hdel.
  2:{ left. cbv beta iota delta [snd]. local_solve. }
  destruct (delete_outcome o) as [| |e].
  - right. exists target, tmp, chunks. repeat (split; [done|]).
    unfold full_run. fold sevs. subst F. by rewrite <- !app_assoc.
  - left. cbv beta iota delta [snd]. local_solve.
  - destruct (is_ClientError e).
    + left. cbv beta iota delta [snd]. local_solve.
    + left. cbv beta iota delta [snd]. rewrite app_nil_r.
      apply Forall_app. split; [local_solve|]. apply worker_except_local.
Qed.

(** X13. The remote object is deleted only by a call in which everything before
    succeeded: deletion is switched on, the key is the key of the call,
    the call returns [True], and the deletion comes after the rename to the
    target path, the recording of the fingerprint and the rename of the
    state file. *)
Theorem worker_download_deletes_after_saving jd cfg o obj s k :
  EvDeleteObject k ∈ events (worker_download jd cfg o obj) s →
  k = Key obj ∧
  DELETE_AFTER_DOWNLOAD cfg = true ∧
  result (worker_download jd cfg o obj) s = inr true ∧
  ∃ target tmp chunks,
    s3_key_to_local_path (Key obj) (S3_PREFIX cfg) (DESTINATION_DIR cfg)
      = inr target ∧
    tmp_path_of target = inr tmp ∧
    events (worker_download jd cfg o obj) s
      = full_run jd cfg obj s target tmp chunks.
Proof.
  unfold events, result. intros Hin.
  destruct (worker_download_remote jd cfg o obj s)
    as [Hloc|(target & tmp & chunks & Hdel & Hpath & Htmp & _ & Hrun)].
  { rewrite Forall_forall in Hloc. by destruct (Hloc _ Hin). }
  rewrite Hrun in Hin |- *. cbv beta iota delta [fst snd] in Hin |- *.
  split; [|split; [done|split; [done|by exists target, tmp, chunks]]].
  unfold full_run, fetch_events, save_writes in Hin.
  repeat (first [ apply elem_of_app in Hin as [Hin|Hin]
                | apply elem_of_cons in Hin as [Hin|Hin]
                | apply list_elem_of_fmap in Hin as (? & Hin & _) ];
          try discriminate Hin).
  all: first [by apply elem_of_nil in Hin | by simplify_eq].
Qed.

(** X14. When the deletion of the remote object fails after everything before
    it succeeded, the object stays recorded and saved, and the remote
    object is not deleted. A [ClientError] is logged as a warning and the
    call returns [True]; any other error reaches the handler of the
    download: the call logs a failed download and returns [False]. *)
Theorem worker_download_delete_failure jd cfg o obj s target tmp chunks e :
  has_entry (data s) (Key obj) (etag_of obj) = false →
  s3_key_to_local_path (Key obj) (S3_PREFIX cfg) (DESTINATION_DIR cfg)
    = inr target →
  tmp_path_of target = inr tmp →
  fetch_succeeds o chunks →
  save_outcome o = SaveOk →
  DELETE_AFTER_DOWNLOAD cfg = true →
  (delete_outcome o = DelClientError ∧ e = ClientError)
    ∨ delete_outcome o = DelFails e →
  let s' := final (worker_download jd cfg o obj) s in
  let d' := <[Key obj := etag_of obj]> (data s) in
  data s' = d' ∧
  fs s' !! file_path cfg = Some (jd d') ∧
  Forall local_effect (events (worker_download jd cfg o obj) s) ∧
  (is_ClientError e = true →
   result (worker_download jd cfg o obj) s = inr true ∧
   (WARNING, MsgDeleteFailed (Key obj)) ∈ log s') ∧
  (is_ClientError e = false →
   result (worker_download jd cfg o obj) s = inr false ∧
   (ERROR, MsgFailed (Key obj) e) ∈ log s').
Proof.
  intros Hhas Hpath Htmp Hf Hs Hdel Ho s' d'. subst s'.
  set (R := recorded_run jd cfg obj s target tmp chunks).
  assert (HR : Forall local_effect R).
  { subst R. unfold recorded_run, fetch_events, save_writes. local_solve. }
  assert (Hrun : ∃ b lvl msg,
            worker_download jd cfg o obj s = (inr b, R ++ [EvLog lvl msg]) ∧
            lvl ≠ DEBUG ∧
            (is_ClientError e = true →
             b = true ∧ lvl = WARNING ∧ msg = MsgDeleteFailed (Key obj)) ∧
            (is_ClientError e = false →
             b = false ∧ lvl = ERROR ∧ msg = MsgFailed (Key obj) e)).
  { rewrite (worker_download_recorded jd cfg o obj s target tmp chunks)
      by done.
    fold R. rewrite delete_block_run, Hdel.
    destruct Ho as [[-> ->]| ->].
    - exists true, WARNING, (MsgDeleteFailed (Key obj)).
      repeat split; done.
    - destruct (is_ClientError e) eqn:He.
      + exists true, WARNING, (MsgDeleteFailed (Key obj)).
        repeat split; done.
      + exists false, ERROR, (MsgFailed (Key obj) e). repeat split; done. }
  destruct Hrun as (b & lvl & msg & Hrun & Hlvl & Ht & Hf').
  destruct (recorded_store jd cfg obj s target tmp chunks [EvLog lvl msg]
              Htmp) as (Hd & Hfile & _); [by apply Forall_singleton|].
  fold R in Hd, Hfile.
  assert (Hlog : (lvl, msg) ∈ log (replay s (R ++ [EvLog lvl msg]))).
  { rewrite replay_app. simpl. rewrite bool_decide_eq_false_2 by done.
    simpl. apply elem_of_app. right. by apply list_elem_of_singleton. }
  unfold result, final, events. rewrite Hrun.
  cbv beta iota delta [fst snd].
  split; [done|]. split; [done|]. split; [|split].
  - apply Forall_app. split; [done|]. by apply Forall_singleton.
  - intros He. destruct (Ht He) as (-> & -> & ->). done.
  - intros He. destruct (Hf' He) as (-> & -> & ->). done.
Qed.

(** ** One turn of the polling loop *)

Lemma replay_now s evs :
  Forall timeless evs → now (replay s evs) = now s.
Proof.
  revert s. induction evs as [|e evs IH]; intros s Hall; [done|].
  inversion_clear Hall as [|? ? He Hevs]. rewrite replay_cons, IH by done.
  destruct e; simpl in *; try done. by case_bool_decide.
Qed.

Lemma worker_timeless jd cfg o obj s :
  Forall timeless (worker_download jd cfg o obj s).2.
Proof.
  destruct (worker_download_steps jd cfg o obj s)
    as [Hlog|(target & tmp & _ & _ & Hsteps)].
  - eapply Forall_impl; [exact Hlog|]. by intros e (l & m & ->).
  - eapply Forall_impl; [exact Hsteps|]. by intros [].
Qed.

Lemma pool_timeless jd cfg os i work s :
  Forall timeless (run_pool jd cfg os i work s).2.
Proof.
  revert i s. induction work as [|obj rest IH]; intros i s; [done|].
  rewrite run_pool_cons. apply Forall_app. split; [|apply IH].
  apply worker_timeless.
Qed.

Lemma poll_timeless jd cfg listing os s :
  Forall timeless (poll jd cfg listing os s).2.
Proof.
  destruct listing as [e|objects]; [done|].
  rewrite poll_run_raw. cbv beta iota zeta delta [snd].
  destruct (prune_run (seen_keys objects) s) as (tail & -> & Htail).
  cbv beta iota delta [snd]. apply Forall_app. split.
  - apply Forall_cons. split; [done|].
    destruct Htail as [->|[n ->]]; [done|]. by apply Forall_singleton.
  - case_bool_decide; [|by apply Forall_singleton].
    apply Forall_cons. split; [done|]. apply pool_timeless.
Qed.

Lemma stop_event_wait_run stop_at timeout s :
  stop_event_wait stop_at timeout s
  = (inr (), [EvTime (wait_length stop_at (now s) timeout)]).
Proof.
  unfold stop_event_wait, wait_length, is_set. run_monad. simpl.
  destruct stop_at as [c|]; [|done]. by case_bool_decide.
Qed.

Lemma iteration_run jd cfg stop_at t s :
  let p := poll jd cfg (listing t) (oracles t) (replay s [EvTime (busy t)]) in
  let body := EvTime (busy t) :: p.2 ++ handler_events cfg p.1 in
  iteration jd cfg stop_at t s =
  (inr (),
   body ++ [EvTime (wait_length stop_at (now (replay s body))
                      (POLL_INTERVAL_SECONDS cfg))]).
Proof.
  intros p body. subst body p. unfold iteration, time_sleep.
  generalize (stop_event_wait_run stop_at (POLL_INTERVAL_SECONDS cfg)).
  generalize (stop_event_wait stop_at (POLL_INTERVAL_SECONDS cfg)).
  generalize (poll jd cfg (listing t) (oracles t)).
  intros pl w Hw. run_monad. unfold handler_events, any_exception.
  change (replay s [EvTime (busy t)]) with (apply_event s (EvTime (busy t))).
  destruct (pl (apply_event s (EvTime (busy t)))) as [[e|[]] pevs];
    cbv beta iota delta [fst snd].
  - destruct (is_ClientError e); unfold emit; cbv beta iota delta [fst snd];
      rewrite Hw; cbv beta iota; f_equal;
      repeat (rewrite <- ?app_assoc, <- ?app_comm_cons; simpl app);
      reflexivity.
  - rewrite Hw. cbv beta iota. by rewrite !app_nil_r.
Qed.

Lemma wait_length_le stop_at t timeout : wait_length stop_at t timeout ≤ timeout.
Proof.
  unfold wait_length. destruct stop_at as [c|]; [|done].
  case_bool_decide; lia.
Qed.

Lemma poll_result jd cfg listing os s :
  (poll jd cfg listing os s).1 = match listing with
                                 | inl e => inl e
                                 | inr _ => inr ()
                                 end.
Proof. destruct listing as [e|objects]; [done|]. by rewrite poll_run_raw. Qed.

(** X18. A turn of the loop never raises, whatever the listing and the workers
    do; it ends with the wait for the next tick, which lasts at most the
    poll interval and no time at all when the stop event is set. *)
Theorem iteration_survives_every_error jd cfg stop_at t s :
  result (iteration jd cfg stop_at t) s = inr () ∧
  ∃ body d,
    events (iteration jd cfg stop_at t) s = body ++ [EvTime d] ∧
    d ≤ POLL_INTERVAL_SECONDS cfg ∧
    (is_set stop_at (now (replay s body)) = true → d = 0).
Proof.
  unfold result, events. rewrite iteration_run. split; [done|].
  eexists _, _. split; [done|]. split; [apply wait_length_le|].
  unfold is_set, wait_length. destruct stop_at as [c|]; [|done].
  intros H. by rewrite H.
Qed.

(** X19. When the listing fails, the turn changes neither the files nor the
    mapping: nothing is pruned and no worker runs; the error is logged,
    as an S3 error when it is a [ClientError]. *)
Theorem iteration_with_failed_listing jd cfg stop_at t s e :
  listing t = inl e →
  let s' := final (iteration jd cfg stop_at t) s in
  fs s' = fs s ∧ data s' = data s ∧
  Forall log_or_time (events (iteration jd cfg stop_at t) s) ∧
  (ERROR, if is_ClientError e then MsgS3Error else MsgUnexpected e) ∈ log s'.
Proof.
  intros Hl s'. subst s'. unfold final, events. rewrite iteration_run.
  rewrite Hl. cbv beta iota zeta delta [snd fst].
  change (poll jd cfg (inl e) (oracles t) ?x) with (@inl exn unit e, @nil Event).
  cbv beta iota delta [snd fst handler_events].
  destruct (is_ClientError e); simpl; repeat split;
    try (by repeat constructor);
    rewrite !elem_of_app, !list_elem_of_singleton; auto.
Qed.

(** The instant at which a turn ends whose listing raises no
    [ClientError]: the work of the turn, then the wait. *)
Lemma iteration_end_time jd cfg stop_at t s :
  listing t ≠ inl ClientError →
  now (final (iteration jd cfg stop_at t) s)
  = now s + busy t
    + wait_length stop_at (now s + busy t) (POLL_INTERVAL_SECONDS cfg).
Proof.
  intros Hl. unfold final, events. rewrite iteration_run.
  cbv beta iota zeta delta [snd].
  pose proof (poll_timeless jd cfg (listing t) (oracles t)
                (replay s [EvTime (busy t)])) as Hp.
  pose proof (poll_result jd cfg (listing t) (oracles t)
                (replay s [EvTime (busy t)])) as Hr.
  destruct (poll jd cfg (listing t) (oracles t) (replay s [EvTime (busy t)]))
    as [r pevs]. simpl in Hp, Hr. cbv beta iota delta [fst snd].
  assert (Hh : Forall timeless (handler_events cfg r)).
  { subst r. destruct (listing t) as [e|objects]; [|done]. simpl.
    unfold is_ClientError. case_bool_decide; [by subst|].
    by apply Forall_singleton. }
  assert (Hb : now (replay s (EvTime (busy t) :: pevs ++ handler_events cfg r))
               = now s + busy t).
  { rewrite replay_cons, replay_now; [done|]. by apply Forall_app. }
  rewrite replay_app.
  change (now (replay ?x [EvTime ?d])) with (now x + d).
  by rewrite Hb.
Qed.

(** X20. After a [ClientError] of the listing the turn lasts at least the
    backoff of [min(30, interval)] seconds, whenever the stop event is
    set. *)
Theorem iteration_backoff_is_slept_through jd cfg stop_at t s :
  listing t = inl ClientError →
  now s + busy t + 30 `min` POLL_INTERVAL_SECONDS cfg
    ≤ now (final (iteration jd cfg stop_at t) s).
Proof.
  intros Hl. unfold final, events. rewrite iteration_run. rewrite Hl.
  cbv beta iota zeta delta [snd fst].
  change (poll jd cfg (inl ClientError) (oracles t) ?x)
    with (@inl exn unit ClientError, @nil Event).
  simpl. lia.
Qed.

(** ** The polling loop *)

Lemma replay_now_le s evs : now s ≤ now (replay s evs).
Proof.
  revert s. induction evs as [|e evs IH]; intros s; [done|].
  rewrite replay_cons. etrans; [|apply IH].
  destruct e; simpl; try done; [by case_bool_decide|lia].
Qed.

Lemma is_set_mono stop_at t t' :
  t ≤ t' → is_set stop_at t = true → is_set stop_at t' = true.
Proof.
  unfold is_set. destruct stop_at as [c|]; [|done]. intros Hle H.
  apply bool_decide_eq_true in H. apply bool_decide_eq_true. lia.
Qed.

Lemma main_loop_cons jd cfg stop_at t rest s :
  main_loop jd cfg stop_at (t :: rest) s =
  if is_set stop_at (now s) then (inr true, [EvLog INFO MsgExited])
  else
    let ievs := (iteration jd cfg stop_at t s).2 in
    let r := main_loop jd cfg stop_at rest (replay s ievs) in
    (r.1, ievs ++ r.2).
Proof.
  pose proof (iteration_run jd cfg stop_at t s) as Hi. simpl in Hi.
  change (main_loop jd cfg stop_at (t :: rest))
    with (stop ← gets (fun s => is_set stop_at (now s));
          if stop : bool then logging INFO MsgExited;; mret true
          else iteration jd cfg stop_at t;; main_loop jd cfg stop_at rest).
  revert Hi. generalize (iteration jd cfg stop_at t).
  generalize (main_loop jd cfg stop_at rest). intros ml it Hi.
  run_monad. cbv beta iota. change (replay s []) with s.
  destruct (is_set stop_at (now s)); [done|].
  rewrite Hi. cbv beta iota zeta delta [fst snd].
  by destruct (ml _) as [[e|b] evs].
Qed.

(** X21. The loop never raises, and it is left only when the stop event is set:
    then the last effect is the log record of the exit. Once the event is
    set no further turn is started. *)
Theorem main_loop_is_left_only_when_stopped jd cfg stop_at ticks s :
  let run := main_loop jd cfg stop_at ticks in
  (∃ b, result run s = inr b ∧
        (b = true →
         is_set stop_at (now (final run s)) = true ∧
         last (events run s) = Some (EvLog INFO MsgExited))) ∧
  (stop_at = None → result run s = inr false) ∧
  (is_set stop_at (now s) = true → ticks ≠ [] →
   events run s = [EvLog INFO MsgExited]).
Proof.
  intros run. subst run.
  assert (H1 : ∃ b, result (main_loop jd cfg stop_at ticks) s = inr b ∧
        (b = true →
         is_set stop_at (now (final (main_loop jd cfg stop_at ticks) s)) = true ∧
         last (events (main_loop jd cfg stop_at ticks) s)
           = Some (EvLog INFO MsgExited))).
  { revert s. induction ticks as [|t rest IH]; intros s.
    - exists false. by split.
    - unfold result, final, events in *. rewrite main_loop_cons.
      destruct (is_set stop_at (now s)) eqn:Hset.
      + exists true. split; [done|]. intros _. split; [|done].
        eapply is_set_mono; [|exact Hset]. apply replay_now_le.
      + cbv zeta. set (ievs := (iteration jd cfg stop_at t s).2).
        destruct (IH (replay s ievs)) as (b & Hb & Hlast).
        destruct (main_loop jd cfg stop_at rest (replay s ievs))
          as [r mevs]. simpl in Hb, Hlast |- *.
        exists b. split; [done|]. intros ->.
        destruct (Hlast eq_refl) as [Hs Hl]. rewrite replay_app.
        split; [done|].
        destruct mevs as [|e evs _] using rev_ind; [done|].
        by rewrite app_assoc, !last_snoc in *. }
  split; [done|]. split.
  - intros ->. destruct H1 as (b & Hb & Hlast). rewrite Hb.
    destruct b; [|done]. by destruct (Hlast eq_refl).
  - intros Hset Hne. destruct ticks as [|t rest]; [done|].
    unfold events. by rewrite main_loop_cons, Hset.
Qed.

(** X22. A signal during a turn whose listing raises no [ClientError] ends the
    loop promptly: when the signal arrives after the start of the turn and
    not later than one poll interval after its work, the loop is left
    without another turn, at the instant of the signal or, when the work
    of the turn is still going on then, when this work is done. *)
Theorem main_loop_is_left_promptly jd cfg c t t' rest s :
  listing t ≠ inl ClientError →
  now s < c →
  c ≤ now s + busy t + POLL_INTERVAL_SECONDS cfg →
  let run := main_loop jd cfg (Some c) (t :: t' :: rest) in
  result run s = inr true ∧
  events run s
    = events (iteration jd cfg (Some c) t) s ++ [EvLog INFO MsgExited] ∧
  now (final run s) = c `max` (now s + busy t).
Proof.
  intros Hl H1 H2 run. subst run.
  pose proof (iteration_end_time jd cfg (Some c) t s Hl) as Hend.
  assert (Hc : now (final (iteration jd cfg (Some c) t) s)
               = c `max` (now s + busy t)).
  { rewrite Hend. unfold wait_length. case_bool_decide; lia. }
  assert (H0 : is_set (Some c) (now s) = false).
  { unfold is_set. apply bool_decide_eq_false. lia. }
  assert (H3 : is_set (Some c) (now (final (iteration jd cfg (Some c) t) s))
               = true).
  { unfold is_set. apply bool_decide_eq_true. lia. }
  unfold result, final, events in *.
  rewrite main_loop_cons, H0. cbv zeta. rewrite main_loop_cons, H3.
  cbv beta iota delta [fst snd]. split; [done|]. split; [done|].
  rewrite replay_app.
  change (now (replay ?x [EvLog INFO MsgExited])) with (now x). done.
Qed.

(** ** More on the poll cycle *)

Lemma pool_keeps_untouched jd cfg os i work s p :
  (∀ obj, obj ∈ work → ¬ touched cfg obj p) →
  Forall (keeps_file p) (run_pool jd cfg os i work s).2.
Proof.
  revert i s. induction work as [|obj rest IH]; intros i s Hw; [done|].
  rewrite run_pool_cons. apply Forall_app. split.
  - apply worker_keeps_untouched. apply Hw. by left.
  - apply IH. intros obj' Hobj'. apply Hw. by right.
Qed.

(** X16. A cycle changes no file but the two state files and the target and
    temporary paths of the listed objects. *)
Theorem cycle_touches_listed_paths_only jd cfg objects os s p :
  (∀ obj, obj ∈ objects → ¬ touched cfg obj p) →
  fs (final (poll jd cfg (inr objects) os) s) !! p = fs s !! p.
Proof.
  intros Hp. unfold final, events. rewrite poll_run.
  cbv beta iota zeta delta [snd]. apply replay_keeps.
  destruct (prune_run (seen_keys objects) s) as (tail & -> & Htail).
  cbv beta iota delta [snd]. apply Forall_app. split.
  - apply Forall_cons. split; [done|].
    destruct Htail as [->|[n ->]]; [done|]. by apply Forall_singleton.
  - case_bool_decide; [|by apply Forall_singleton].
    apply Forall_cons. split; [done|]. apply pool_keeps_untouched.
    intros obj Hobj. apply Hp. rewrite work_set_eq in Hobj.
    by apply elem_of_to_download in Hobj as [? _].
Qed.

(** X17. After a cycle in which all fetches succeed, on a listing without two
    fingerprints for one identifier, the mapping in memory is the listing:
    an identifier has the fingerprint [v] exactly when an object with this
    identifier and fingerprint is listed. *)
Theorem cycle_records_the_listing jd cfg objects os s k v :
  consistent objects →
  all_fetched jd cfg objects os s →
  data (final (poll jd cfg (inr objects) os) s) !! k = Some v ↔
  ∃ obj, obj ∈ objects ∧ Key obj = k ∧ etag_of obj = v.
Proof.
  intros Hcons Hok.
  assert (Hrec : ∀ obj, obj ∈ objects →
            data (final (poll jd cfg (inr objects) os) s) !! Key obj
            = Some (etag_of obj)).
  { intros obj Hobj. rewrite poll_final_data.
    apply (bool_decide_unpack _). apply Is_true_true.
    apply (pool_records_all jd cfg objects); try done.
    - intros w Hw. by apply elem_of_to_download in Hw as [? _].
    - destruct (after_prune_data objects s) as [Hd _]. rewrite Hd.
      destruct (has_entry (pruned (seen_keys objects) (data s)) (Key obj)
                  (etag_of obj)) eqn:E; [by left|right].
      by apply elem_of_to_download. }
  split.
  - intros Hk.
    assert (∃ obj, obj ∈ objects ∧ Key obj = k) as (obj & Hobj & <-).
    { rewrite poll_final_data in Hk.
      destruct (pool_dom jd cfg os 0 (work_set objects (data s))
                  (after_prune objects s) k) as [Hin|(obj & Hobj & Hkey)];
        [by eexists|..].
      - destruct (after_prune_data objects s) as [Hd _]. rewrite Hd in Hin.
        destruct Hin as [x Hx]. unfold pruned in Hx.
        apply map_lookup_filter_Some in Hx as [_ Hx]. simpl in Hx.
        by apply elem_of_seen_keys in Hx.
      - exists obj. split; [|done]. rewrite work_set_eq in Hobj.
        by apply elem_of_to_download in Hobj as [? _]. }
    exists obj. split; [done|]. split; [done|].
    rewrite (Hrec obj Hobj) in Hk. by simplify_eq.
  - intros (obj & Hobj & <- & <-). by apply Hrec.
Qed.

(** ** Examples of the further properties *)

Ltac by_computation := apply (bool_decide_unpack _); vm_compute; exact I.

(** X1, witness: the key [a/file1.txt] under the root [/data]. *)
Lemma mapper_inside_root_for_relative_paths_witness :
  Str.startswith (relative_key "a/file1.txt" "") "/" = false ∧
  s3_key_to_local_path "a/file1.txt" "" demo_root = inr demo_target ∧
  PathLib.inside demo_root demo_target.
Proof.
  assert (H1 : Str.startswith (relative_key "a/file1.txt" "") "/" = false)
    by (vm_compute; reflexivity).
  assert (H2 : s3_key_to_local_path "a/file1.txt" "" demo_root = inr demo_target)
    by (vm_compute; reflexivity).
  split; [exact H1|]. split; [exact H2|].
  exact (mapper_inside_root_for_relative_paths "a/file1.txt" "" demo_root
           demo_target H1 H2).
Defined.

(** X2, witness: the key [up/a.txt] under the prefix [up]. *)
Lemma mapper_strips_the_prefix_witness :
  "up" ≠ "" ∧
  relative_key ("up" +:+ "/a.txt") "up"
    = relative_key (strip_prefix_slash "/a.txt") "" ∧
  (s3_key_to_local_path ("up" +:+ "/a.txt") "up" demo_root = inr target_a ↔
   s3_key_to_local_path (strip_prefix_slash "/a.txt") "" demo_root
     = inr target_a).
Proof.
  assert (H1 : "up" ≠ "") by discriminate.
  split; [exact H1|].
  exact (mapper_strips_the_prefix "up" "/a.txt" demo_root target_a H1).
Defined.

(** X5, witness: the target path [/data/a.txt]. *)
Lemma tmp_path_stays_under_root_witness :
  PathLib.inside demo_root target_a ∧
  target_a ≠ demo_root ∧
  tmp_path_of target_a = inr target_part ∧
  PathLib.inside demo_root target_part ∧
  PathLib.parent target_part = PathLib.parent target_a ∧
  PathLib.name target_part = PathLib.name target_a +:+ ".part" ∧
  target_part ≠ target_a.
Proof.
  assert (H1 : PathLib.inside demo_root target_a) by by_computation.
  assert (H2 : target_a ≠ demo_root) by by_computation.
  assert (H3 : tmp_path_of target_a = inr target_part)
    by (vm_compute; reflexivity).
  split; [exact H1|]. split; [exact H2|]. split; [exact H3|].
  exact (tmp_path_stays_under_root demo_root target_a target_part H1 H2 H3).
Defined.

(** X7, witness: a store whose state file is older than its mapping. *)
Lemma save_then_load_restores_the_mapping_witness :
  demo_loads (demo_dumps (data store_stale)) = IsMapping (data store_stale) ∧
  StateStore_init demo_loads demo_cfg true true
    (fs (final (StateStore.save demo_dumps demo_cfg SaveOk) store_stale))
  = inr (Ready (data store_stale) false).
Proof.
  assert (H1 : demo_loads (demo_dumps (data store_stale))
               = IsMapping (data store_stale)) by (vm_compute; reflexivity).
  split; [exact H1|].
  exact (save_then_load_restores_the_mapping demo_dumps demo_loads demo_cfg
           store_stale H1).
Defined.

(** X8, witness: a save stopped after the first character of the document. *)
Lemma load_after_interrupted_save_witness :
  fs store_stale !! file_path demo_cfg = Some (demo_dumps ∅) ∧
  demo_loads (demo_dumps ∅) = IsMapping ∅ ∧
  demo_loads (demo_dumps (data store_stale)) = IsMapping (data store_stale) ∧
  stale_crash `prefix_of` events (StateStore.save demo_dumps demo_cfg SaveOk)
                            store_stale ∧
  (StateStore_init demo_loads demo_cfg true true
     (fs (replay store_stale stale_crash)) = inr (Ready ∅ false) ∨
   StateStore_init demo_loads demo_cfg true true
     (fs (replay store_stale stale_crash))
     = inr (Ready (data store_stale) false)).
Proof.
  assert (H1 : fs store_stale !! file_path demo_cfg = Some (demo_dumps ∅))
    by (vm_compute; reflexivity).
  assert (H2 : demo_loads (demo_dumps ∅) = IsMapping ∅)
    by (vm_compute; reflexivity).
  assert (H3 : demo_loads (demo_dumps (data store_stale))
               = IsMapping (data store_stale)) by (vm_compute; reflexivity).
  assert (H4 : stale_crash `prefix_of`
                 events (StateStore.save demo_dumps demo_cfg SaveOk) store_stale)
    by by_computation.
  split; [exact H1|]. split; [exact H2|]. split; [exact H3|].
  split; [exact H4|].
  exact (load_after_interrupted_save demo_dumps demo_loads demo_cfg SaveOk
           store_stale ∅ stale_crash H1 H2 H3 H4).
Defined.

(** X9, witness: the object [a] at [v2] and a store that records it. *)
Lemma worker_download_skips_recorded_objects_witness :
  has_entry (data store_a_v2) (Key recorded_obj) (etag_of recorded_obj) = true ∧
  result (worker_download demo_dumps demo_cfg (all_ok []) recorded_obj)
    store_a_v2 = inr false ∧
  events (worker_download demo_dumps demo_cfg (all_ok []) recorded_obj)
    store_a_v2 = [EvLog DEBUG (MsgSkip (Key recorded_obj))] ∧
  final (worker_download demo_dumps demo_cfg (all_ok []) recorded_obj)
    store_a_v2 = store_a_v2.
Proof.
  assert (H1 : has_entry (data store_a_v2) (Key recorded_obj)
                 (etag_of recorded_obj) = true) by (vm_compute; reflexivity).
  split; [exact H1|].
  exact (worker_download_skips_recorded_objects demo_dumps demo_cfg (all_ok [])
           recorded_obj store_a_v2 H1).
Defined.

(** X10, witness: a download of [a/file1.txt] that breaks after one chunk. *)
Lemma worker_download_handles_fetch_errors_witness :
  has_entry (data empty_store) (Key demo_obj) (etag_of demo_obj) = false ∧
  s3_key_to_local_path (Key demo_obj) (S3_PREFIX demo_cfg)
    (DESTINATION_DIR demo_cfg) = inr demo_target ∧
  tmp_path_of demo_target = inr demo_tmp ∧
  fetch_fails download_breaks ∧
  result (worker_download demo_dumps demo_cfg download_breaks demo_obj)
    empty_store = inr false.
Proof.
  assert (H1 : has_entry (data empty_store) (Key demo_obj) (etag_of demo_obj)
               = false) by (vm_compute; reflexivity).
  assert (H2 : s3_key_to_local_path (Key demo_obj) (S3_PREFIX demo_cfg)
                 (DESTINATION_DIR demo_cfg) = inr demo_target)
    by (vm_compute; reflexivity).
  assert (H3 : tmp_path_of demo_target = inr demo_tmp)
    by (vm_compute; reflexivity).
  assert (H4 : fetch_fails download_breaks)
    by (right; right; left; exists ["he"], ClientError; reflexivity).
  split; [exact H1|]. split; [exact H2|]. split; [exact H3|].
  split; [exact H4|].
  exact (proj1 (worker_download_handles_fetch_errors demo_dumps demo_cfg
                  download_breaks demo_obj empty_store demo_target demo_tmp
                  H1 H2 H3 H4)).
Defined.



(** X13, witness: a fetch with the deletion switched on. *)
Lemma worker_download_deletes_after_saving_witness :
  EvDeleteObject "a/file1.txt"
    ∈ events (worker_download demo_dumps delete_cfg (all_ok ["he"; "llo"])
                demo_obj) empty_store ∧
  "a/file1.txt" = Key demo_obj ∧
  DELETE_AFTER_DOWNLOAD delete_cfg = true ∧
  result (worker_download demo_dumps delete_cfg (all_ok ["he"; "llo"]) demo_obj)
    empty_store = inr true.
Proof.
  assert (H1 : EvDeleteObject "a/file1.txt"
                 ∈ events (worker_download demo_dumps delete_cfg
                             (all_ok ["he"; "llo"]) demo_obj) empty_store)
    by by_computation.
  split; [exact H1|].
  pose proof (worker_download_deletes_after_saving demo_dumps delete_cfg
                (all_ok ["he"; "llo"]) demo_obj empty_store "a/file1.txt" H1)
    as H.
  exact (conj (proj1 H) (conj (proj1 (proj2 H)) (proj1 (proj2 (proj2 H))))).
Defined.

(** X14, witness: a fetch after which the deletion raises an [OSError]. *)
Lemma worker_download_delete_failure_witness :
  has_entry (data empty_store) (Key demo_obj) (etag_of demo_obj) = false ∧
  s3_key_to_local_path (Key demo_obj) (S3_PREFIX delete_cfg)
    (DESTINATION_DIR delete_cfg) = inr demo_target ∧
  tmp_path_of demo_target = inr demo_tmp ∧
  fetch_succeeds delete_fails ["he"; "llo"] ∧
  save_outcome delete_fails = SaveOk ∧
  DELETE_AFTER_DOWNLOAD delete_cfg = true ∧
  ((delete_outcome delete_fails = DelClientError ∧ OSError = ClientError)
   ∨ delete_outcome delete_fails = DelFails OSError) ∧
  data (final (worker_download demo_dumps delete_cfg delete_fails demo_obj)
          empty_store)
    = <[Key demo_obj := etag_of demo_obj]> (data empty_store).
Proof.
  assert (H1 : has_entry (data empty_store) (Key demo_obj) (etag_of demo_obj)
               = false) by (vm_compute; reflexivity).
  assert (H2 : s3_key_to_local_path (Key demo_obj) (S3_PREFIX delete_cfg)
                 (DESTINATION_DIR delete_cfg) = inr demo_target)
    by (vm_compute; reflexivity).
  assert (H3 : tmp_path_of demo_target = inr demo_tmp)
    by (vm_compute; reflexivity).
  assert (H4 : fetch_succeeds delete_fails ["he"; "llo"]) by (repeat split).
  assert (H5 : save_outcome delete_fails = SaveOk) by reflexivity.
  assert (H6 : DELETE_AFTER_DOWNLOAD delete_cfg = true) by reflexivity.
  assert (H7 : (delete_outcome delete_fails = DelClientError
                ∧ OSError = ClientError)
               ∨ delete_outcome delete_fails = DelFails OSError)
    by (right; reflexivity).
  split; [exact H1|]. split; [exact H2|]. split; [exact H3|].
  split; [exact H4|]. split; [exact H5|]. split; [exact H6|].
  split; [exact H7|].
  exact (proj1 (worker_download_delete_failure demo_dumps delete_cfg
                  delete_fails demo_obj empty_store demo_target demo_tmp
                  ["he"; "llo"] OSError H1 H2 H3 H4 H5 H6 H7)).
Defined.

(** X16, witness: a cycle on two objects and the path [/data/other.txt]. *)
Lemma cycle_touches_listed_paths_only_witness :
  (∀ obj, obj ∈ demo_listing → ¬ touched demo_cfg obj outside_path) ∧
  fs (final (poll demo_dumps demo_cfg (inr demo_listing) fetch_ok) empty_store)
    !! outside_path = fs empty_store !! outside_path.
Proof.
  assert (H1 : ∀ obj, obj ∈ demo_listing → ¬ touched demo_cfg obj outside_path).
  { intros obj Hin [H|[H|(target & Hm & [H|H])]];
      [discriminate H|discriminate H|..];
      apply elem_of_cons in Hin as [->|Hin];
      try (apply list_elem_of_singleton in Hin as ->);
      vm_compute in Hm; injection Hm as <-; vm_compute in H; discriminate H. }
  split; [exact H1|].
  exact (cycle_touches_listed_paths_only demo_dumps demo_cfg demo_listing
           fetch_ok empty_store outside_path H1).
Defined.

(** X17, witness: a cycle on two objects, the entry of [b]. *)
Lemma cycle_records_the_listing_witness :
  consistent demo_listing ∧
  all_fetched demo_dumps demo_cfg demo_listing fetch_ok empty_store ∧
  (data (final (poll demo_dumps demo_cfg (inr demo_listing) fetch_ok)
           empty_store) !! "b" = Some "v2" ↔
   ∃ obj, obj ∈ demo_listing ∧ Key obj = "b" ∧ etag_of obj = "v2").
Proof.
  assert (Hc : consistent demo_listing) by by_computation.
  assert (Hf : all_fetched demo_dumps demo_cfg demo_listing fetch_ok empty_store)
    by by_computation.
  split; [exact Hc|]. split; [exact Hf|].
  exact (cycle_records_the_listing demo_dumps demo_cfg demo_listing fetch_ok
           empty_store "b" "v2" Hc Hf).
Defined.

(** X19, witness: a turn whose listing raises a [ClientError]. *)
Lemma iteration_with_failed_listing_witness :
  listing failing_turn = inl ClientError ∧
  fs (final (iteration demo_dumps demo_cfg (Some 1) failing_turn) empty_store)
    = fs empty_store ∧
  data (final (iteration demo_dumps demo_cfg (Some 1) failing_turn) empty_store)
    = data empty_store.
Proof.
  assert (H1 : listing failing_turn = inl ClientError) by reflexivity.
  split; [exact H1|].
  pose proof (iteration_with_failed_listing demo_dumps demo_cfg (Some 1)
                failing_turn empty_store ClientError H1) as H.
  exact (conj (proj1 H) (proj1 (proj2 H))).
Defined.

(** X20, witness: a failing turn with the signal at second 1. *)
Lemma iteration_backoff_is_slept_through_witness :
  listing failing_turn = inl ClientError ∧
  now empty_store + busy failing_turn
    + 30 `min` POLL_INTERVAL_SECONDS demo_cfg
  ≤ now (final (iteration demo_dumps demo_cfg (Some 1) failing_turn)
           empty_store).
Proof.
  assert (H1 : listing failing_turn = inl ClientError) by reflexivity.
  split; [exact H1|].
  exact (iteration_backoff_is_slept_through demo_dumps demo_cfg (Some 1)
           failing_turn empty_store H1).
Defined.

(** X22, witness: a turn of two seconds of work with the signal at second 1. *)
Lemma main_loop_is_left_promptly_witness :
  listing busy_turn ≠ inl ClientError ∧
  now empty_store < 1 ∧
  1 ≤ now empty_store + busy busy_turn + POLL_INTERVAL_SECONDS demo_cfg ∧
  result (main_loop demo_dumps demo_cfg (Some 1) [busy_turn; idle_turn])
    empty_store = inr true ∧
  now (final (main_loop demo_dumps demo_cfg (Some 1) [busy_turn; idle_turn])
         empty_store) = 1 `max` (now empty_store + busy busy_turn).
Proof.
  assert (H1 : listing busy_turn ≠ inl ClientError) by discriminate.
  assert (H2 : now empty_store < 1) by (vm_compute; lia).
  assert (H3 : 1 ≤ now empty_store + busy busy_turn
                     + POLL_INTERVAL_SECONDS demo_cfg) by (vm_compute; lia).
  split; [exact H1|]. split; [exact H2|]. split; [exact H3|].
  pose proof (main_loop_is_left_promptly demo_dumps demo_cfg 1 busy_turn
                idle_turn [] empty_store H1 H2 H3) as H.
  exact (conj (proj1 H) (proj2 (proj2 H))).
Defined.
